(** * rv8 user-mode emulator: instruction codec, syscall proxy, loader glue
      and the cached stepper

    Shallow embedding of
      - src/asm/riscv-codec.h          (inst_length, inst_fetch, decode_inst)
      - src/abi/riscv-unknown-abi.h    (unknown_stat, cvt_unknown_stat, the sys_ proxies)
      - app/riscv-test-emulate.cc      (riscv_proxy_runner::step, the loader)

    Conventions.  The host is an LP64 little-endian machine: [uintptr_t],
    [size_t] and [uint64_t] are 64-bit words, [int] is a 32-bit word.  A w-bit
    unsigned integer is a [Z] in [0, 2^w); every C operation that can wrap is
    followed by an explicit [wrap].  Guest memory is host memory (identity
    mapping), modelled as a total map from addresses to bytes. *)

From Stdlib Require Import String ZArith List Bool Lia.
Import ListNotations.
Local Open Scope Z_scope.

(* ------------------------------------------------------------------ *)
(** ** Machine words *)

Module Word.

Definition wrap (w x : Z) : Z := x mod 2 ^ w.

(** Two's complement reading of the low [w] bits of [x]. *)
Definition signed (w x : Z) : Z :=
  let u := wrap w x in if u <? 2 ^ (w - 1) then u else u - 2 ^ w.

Definition u16 := wrap 16.
Definition u32 := wrap 32.
Definition u64 := wrap 64.

End Word.

(* ------------------------------------------------------------------ *)
(** ** Flat byte-addressed memory *)

Module Mem.

(** One byte (0..255) per address. *)
Definition memory := Z -> Z.

Definition write_byte (m : memory) (a b : Z) : memory :=
  fun a' => if a' =? a then b mod 256 else m a'.

(** Little-endian load of [n] bytes at [a]. *)
Fixpoint load_le (m : memory) (a : Z) (n : nat) : Z :=
  match n with
  | O => 0
  | S n' => m a mod 256 + 256 * load_le m (a + 1) n'
  end.

(** Little-endian store of the low [n] bytes of [v] at [a]. *)
Fixpoint store_le (m : memory) (a : Z) (n : nat) (v : Z) : memory :=
  match n with
  | O => m
  | S n' => store_le (write_byte m a v) (a + 1) n' (v / 256)
  end.

Definition load16 (m : memory) (a : Z) : Z := load_le m a 2.
Definition load32 (m : memory) (a : Z) : Z := load_le m a 4.

End Mem.

(* ------------------------------------------------------------------ *)
(** ** Instruction codec (src/asm/riscv-codec.h) *)

Module Codec.
Import Word Mem.

(** [inst_length]: the conditional chain of the source, masks written in
    decimal (0b11 = 3, 0b11100 = 28, 0b111111 = 63, 0b011111 = 31,
    0b1111111 = 127, 0b0111111 = 63).  The result 0 is the illegal
    marker. *)
Definition inst_length (inst : Z) : Z :=
  if negb (Z.land inst 3 =? 3) then 2
  else if negb (Z.land inst 28 =? 28) then 4
  else if Z.land inst 63 =? 31 then 6
  else if Z.land inst 127 =? 63 then 8
  else 0.

(** [inst_fetch addr &inst_length]: returns the pair (inst, inst_length). *)
Definition inst_fetch (m : memory) (addr : Z) : Z * Z :=
  let inst := load32 m addr in
  if negb (Z.land inst 3 =? 3) then (Z.land inst 65535, 2)
  else if negb (Z.land inst 28 =? 28) then (inst, 4)
  else if Z.land inst 63 =? 31 then
    (Z.lor inst (Z.shiftl (load16 m (addr + 4)) 32), 6)
  else if Z.land inst 127 =? 63 then
    (Z.lor inst (Z.shiftl (load32 m (addr + 4)) 32), 8)
  else (0, 8).

(** [struct decode]: the register fields are bit-fields of [rv.inst]. *)
Record decode : Type := mk_decode {
  imm : Z;
  rv_inst : Z;
  rvc_inst : Z;
  op : Z;
  codec : Z
}.

(** The constructor [decode()]. *)
Definition decode_init : decode := mk_decode 0 0 0 0 0.

Definition set_op_codec (dec : decode) (o c : Z) : decode :=
  mk_decode (imm dec) (rv_inst dec) (rvc_inst dec) o c.

(** The generated tables and switch functions of riscv-decode.h and
    riscv-switch.h are not under src/; the functions of this header that
    use them take them as parameters. *)
Section Tables.
Variable riscv_op_illegal : Z.
Variable riscv_inst_codec : Z -> Z.
Variable riscv_inst_decomp : Z -> Z.
Variable decode_inst_op : Z -> Z.
Variable decode_inst_type : decode -> Z -> decode.

(** [decompress_inst_rv32] and [decompress_inst_rv64], which differ in
    the table [riscv_inst_decomp] only. *)
Definition decompress_inst (dec : decode) : decode :=
  let decomp_op := riscv_inst_decomp (op dec) in
  if negb (decomp_op =? riscv_op_illegal)
  then set_op_codec dec (wrap 8 decomp_op) (wrap 8 (riscv_inst_codec decomp_op))
  else dec.

Definition decode_inst (dec : decode) (inst : Z) : decode :=
  let dec := mk_decode (imm dec) (u32 inst) (rvc_inst dec) (op dec) (codec dec) in
  let dec := mk_decode (imm dec) (rv_inst dec) (rvc_inst dec)
               (wrap 8 (decode_inst_op inst)) (codec dec) in
  decode_inst_type dec inst.

(** [decode_inst_rv32], [decode_inst_rv64]. *)
Definition decode_inst_rv (dec : decode) (inst : Z) : decode :=
  decompress_inst (decode_inst dec inst).

End Tables.

(** *** The length cases in the words of the specification *)

Definition low_bits (k w : Z) : Z := w mod 2 ^ k.
Definition bits_4_2 (w : Z) : Z := (w / 4) mod 8.

Definition is_len2 (w : Z) : bool := negb (low_bits 2 w =? 3).
Definition is_len4 (w : Z) : bool :=
  (low_bits 2 w =? 3) && negb (bits_4_2 w =? 7).
Definition is_len6 (w : Z) : bool := low_bits 6 w =? 31.
Definition is_len8 (w : Z) : bool := low_bits 7 w =? 63.

(** How many of the four cases apply to [w]. *)
Definition cases_matching (w : Z) : nat :=
  List.length (filter (fun b : bool => b) [is_len2 w; is_len4 w; is_len6 w; is_len8 w]).

(** The classifier as the specification words it: the case that applies,
    the illegal marker when none does. *)
Definition inst_length_spec (w : Z) : Z :=
  if is_len2 w then 2
  else if is_len4 w then 4
  else if is_len6 w then 6
  else if is_len8 w then 8
  else 0.

(** Everything the classification claim says about one word. *)
Definition length_case_ok (w : Z) : bool :=
  (inst_length w =? inst_length_spec w)
  && Bool.eqb (inst_length w =? 2) (is_len2 w)
  && Bool.eqb (inst_length w =? 4) (is_len4 w)
  && Bool.eqb (inst_length w =? 6) (is_len6 w)
  && Bool.eqb (inst_length w =? 8) (is_len8 w)
  && Bool.eqb (inst_length w =? 0) (Nat.eqb (cases_matching w) 0)
  && Nat.leb (cases_matching w) 1.

(** The residues modulo 128: the classifier reads the low seven bits only. *)
Definition residues : list Z := map Z.of_nat (seq 0 128).

End Codec.

(* ------------------------------------------------------------------ *)
(** ** Processor state, host world and the effect monad *)

Module Machine.
Import Word Mem Codec.

(** XLEN, the template parameter behind [P::xlen], [P::ulong_t], ... *)
Inductive xlen_t : Type := RV32 | RV64.

Definition bits (x : xlen_t) : Z :=
  match x with RV32 => 32 | RV64 => 64 end.

(** Register indices [riscv_ireg_*] of the standard calling convention. *)
Definition riscv_ireg_sp : Z := 2.
Definition riscv_ireg_a0 : Z := 10.
Definition riscv_ireg_a1 : Z := 11.
Definition riscv_ireg_a2 : Z := 12.
Definition riscv_ireg_a7 : Z := 17.

(** [riscv_processor_base<T,P>]: the fields the emulator adds, and of the
    inherited processor [P] the ones the emulator touches.  Each register
    holds its XLEN-bit pattern (the [r.xu.val] view). *)
Record processor : Type := mk_processor {
  pc : Z;
  ireg : Z -> Z;
  flags : Z;
  hart_id : Z;
  mapped_segments : list (Z * Z);
  heap_begin : Z;
  heap_end : Z;
  log_registers : bool;
  log_instructions : bool
}.

Definition set_pc (p : processor) (v : Z) : processor :=
  mk_processor v (ireg p) (flags p) (hart_id p) (mapped_segments p)
    (heap_begin p) (heap_end p) (log_registers p) (log_instructions p).

Definition set_heap_begin (p : processor) (v : Z) : processor :=
  mk_processor (pc p) (ireg p) (flags p) (hart_id p) (mapped_segments p)
    v (heap_end p) (log_registers p) (log_instructions p).

Definition set_heap_end (p : processor) (v : Z) : processor :=
  mk_processor (pc p) (ireg p) (flags p) (hart_id p) (mapped_segments p)
    (heap_begin p) v (log_registers p) (log_instructions p).

(** [mapped_segments.push_back(...)]. *)
Definition push_segment (p : processor) (s : Z * Z) : processor :=
  mk_processor (pc p) (ireg p) (flags p) (hart_id p) (mapped_segments p ++ [s])
    (heap_begin p) (heap_end p) (log_registers p) (log_instructions p).

(** [proc.ireg[r] = v]: the value is truncated to XLEN bits. *)
Definition set_ireg (x : xlen_t) (p : processor) (r v : Z) : processor :=
  mk_processor (pc p)
    (fun r' => if r' =? r then wrap (bits x) v else ireg p r')
    (flags p) (hart_id p) (mapped_segments p)
    (heap_begin p) (heap_end p) (log_registers p) (log_instructions p).

(** What the target headers that are not under src/ fix: the register
    class's implicit integer conversion (the signed or the unsigned reading
    of the XLEN-bit pattern), the host page size, the debug flag bit, the
    syscall numbers and the opcode id of [ecall]. *)
Record target : Type := mk_target {
  xlen : xlen_t;
  reg_signed : bool;
  page_size : Z;
  processor_flag_emulator_debug : Z;
  riscv_syscall_close : Z;
  riscv_syscall_write : Z;
  riscv_syscall_fstat : Z;
  riscv_syscall_exit : Z;
  riscv_syscall_brk : Z;
  riscv_op_ecall : Z
}.

(** The implicit conversion of a register to an integer. *)
Definition reg_val (t : target) (u : Z) : Z :=
  if reg_signed t then signed (bits (xlen t)) u else u.

(** Conversions to the host's C types. *)
Definition to_int (v : Z) : Z := signed 32 v.
Definition to_ssize (v : Z) : Z := signed 64 v.
Definition to_uintptr (v : Z) : Z := u64 v.

(** Host [struct stat] (Linux field names). *)
Record host_stat : Type := mk_host_stat {
  st_dev : Z; st_ino : Z; st_mode : Z; st_nlink : Z;
  st_uid : Z; st_gid : Z; st_rdev : Z; st_size : Z;
  st_blocks : Z; st_blksize : Z;
  st_atim_sec : Z; st_atim_nsec : Z;
  st_mtim_sec : Z; st_mtim_nsec : Z;
  st_ctim_sec : Z; st_ctim_nsec : Z
}.

(** The text [format_inst] produces: "0x%0<digits>tx" of a value, or
    "(invalid)". *)
Inductive inst_text : Type :=
| Hex (digits : Z) (value : Z)
| Invalid.

(** Arguments of a printf-style call. *)
Inductive arg : Type :=
| AInt (v : Z)
| AStr (s : string)
| AStrerror (errno : Z)
| AInst (t : inst_text).

(** What the emulator does to the host, in program order. *)
Inductive event : Type :=
| EvOpen (path : string) (oflags : Z)
| EvClose (fd : Z)
| EvWrite (fd buf count : Z)
| EvFstat (fd : Z)
| EvMmap (addr len prot mflags fd off : Z)
| EvMunmap (addr len : Z)
| EvExit (code : Z)
| EvDebug (fmt : string) (args : list arg)
| EvPanic (fmt : string) (args : list arg)
| EvPrintRegs (regs : list Z)
| EvPrintDisasm (hart pc_ : Z) (inst : inst_text) (dec : decode).

Record world : Type := mk_world {
  mem : memory;
  errno : Z;
  trace : list event
}.

(** The host's answers.  Each may depend on everything that happened so
    far.  A call answers with its return value and the value [errno] has
    afterwards; [mmap] answers with the memory after a successful mapping
    or with the [errno] of the failure. *)
Record host : Type := mk_host {
  host_open : world -> string -> Z -> Z * Z;
  host_close : world -> Z -> Z * Z;
  host_write : world -> Z -> Z -> Z -> Z * Z;
  host_fstat : world -> Z -> Z * Z * host_stat;
  host_mmap : world -> Z -> Z -> Z -> Z -> Z -> Z -> memory + Z
}.

(** A computation ends normally, in the host's [exit], or in [panic]. *)
Inductive outcome (A : Type) : Type :=
| Normal (a : A) (w : world)
| Exited (code : Z) (w : world)
| Panicked (w : world).
Arguments Normal {A} a w.
Arguments Exited {A} code w.
Arguments Panicked {A} w.

Definition M (A : Type) : Type := world -> outcome A.

Definition ret {A} (a : A) : M A := fun w => Normal a w.

Definition bind {A B} (c : M A) (k : A -> M B) : M B :=
  fun w =>
    match c w with
    | Normal a w' => k a w'
    | Exited code w' => Exited code w'
    | Panicked w' => Panicked w'
    end.


Definition emit (e : event) (w : world) : world :=
  mk_world (mem w) (errno w) (trace w ++ [e]).

Definition with_errno (w : world) (e : Z) : world :=
  mk_world (mem w) e (trace w).

Definition with_mem (w : world) (m : memory) : world :=
  mk_world m (errno w) (trace w).

Definition get_errno : M Z := fun w => Normal (errno w) w.

Definition debug (fmt : string) (args : list arg) : M unit :=
  fun w => Normal tt (emit (EvDebug fmt args) w).

Definition panic {A} (fmt : string) (args : list arg) : M A :=
  fun w => Panicked (emit (EvPanic fmt args) w).

End Machine.

Declare Scope emu_scope.
Delimit Scope emu_scope with emu.
Notation "x <- c ;; k" := (Machine.bind c (fun x => k))
  (at level 61, c at next level, right associativity) : emu_scope.
Notation "c ;;; k" := (Machine.bind c (fun _ => k))
  (at level 61, right associativity) : emu_scope.

(* ------------------------------------------------------------------ *)
(** ** Host calls *)

Module HostCalls.
Import Word Mem Codec Machine.

(** <fcntl.h>, <sys/mman.h>, <errno.h> (Linux values). *)
Definition O_RDONLY : Z := 0.
Definition PROT_READ : Z := 1.
Definition PROT_WRITE : Z := 2.
Definition PROT_EXEC : Z := 4.
Definition MAP_PRIVATE : Z := 2.
Definition MAP_FIXED : Z := 16.
Definition MAP_ANONYMOUS : Z := 32.
Definition ENOMEM : Z := 12.

Section WithHost.
Variable H : host.

Definition open (path : string) (oflags : Z) : M Z :=
  fun w =>
    let w1 := emit (EvOpen path oflags) w in
    let '(r, e) := host_open H w1 path oflags in
    Normal (to_int r) (with_errno w1 e).

Definition close (fd : Z) : M Z :=
  fun w =>
    let w1 := emit (EvClose fd) w in
    let '(r, e) := host_close H w1 fd in
    Normal (to_int r) (with_errno w1 e).

Definition write (fd buf count : Z) : M Z :=
  fun w =>
    let w1 := emit (EvWrite fd buf count) w in
    let '(r, e) := host_write H w1 fd buf count in
    Normal (to_ssize r) (with_errno w1 e).

Definition fstat (fd : Z) : M (Z * host_stat) :=
  fun w =>
    let w1 := emit (EvFstat fd) w in
    let '(r, e, s) := host_fstat H w1 fd in
    Normal (to_int r, s) (with_errno w1 e).

(** [mmap]: [Some addr] on success (every caller passes MAP_FIXED),
    [None] for MAP_FAILED. *)
Definition mmap (addr len prot mflags fd off : Z) : M (option Z) :=
  fun w =>
    let w1 := emit (EvMmap addr len prot mflags fd off) w in
    match host_mmap H w1 addr len prot mflags fd off with
    | inl m' => Normal (Some addr) (with_mem w1 m')
    | inr e => Normal None (with_errno w1 e)
    end.

Definition munmap (addr len : Z) : M unit :=
  fun w => Normal tt (emit (EvMunmap addr len) w).

Definition exit {A} (code : Z) : M A :=
  fun w => Exited code (emit (EvExit code) w).

End WithHost.

End HostCalls.

(* ------------------------------------------------------------------ *)
(** ** The ABI proxy (src/abi/riscv-unknown-abi.h) *)

Module Abi.
Import Word Mem Codec Machine HostCalls.
Local Open Scope emu_scope.

(** *** [unknown_stat<P>] and its conversion *)

(** The four member types of [P]. *)
Inductive ctype : Type := ulong_t | long_t | uint_t | int_t.

(** Modelled from the spec: the typedefs [P::ulong_t], [P::long_t],
    [P::uint_t], [P::int_t] of the processor headers, which are not under
    src/ ("ulong_t is XLEN-wide unsigned; long_t is XLEN-wide signed;
    uint_t/int_t are 32-bit").  Size in bytes. *)
Definition sizeof (x : xlen_t) (t : ctype) : Z :=
  match t with
  | ulong_t | long_t => bits x / 8
  | uint_t | int_t => 4
  end.

Definition is_signed (t : ctype) : bool :=
  match t with
  | long_t | int_t => true
  | ulong_t | uint_t => false
  end.

Inductive field : Type :=
| f_dev | f_ino | f_mode | f_nlink | f_uid | f_gid | f_rdev | f_pad1
| f_size | f_blksize | f_pad2 | f_blocks
| f_atime | f_atime_nsec | f_mtime | f_mtime_nsec | f_ctime | f_ctime_nsec
| f_unused4 | f_unused5.

Definition field_eqb (a b : field) : bool :=
  match a, b with
  | f_dev, f_dev | f_ino, f_ino | f_mode, f_mode | f_nlink, f_nlink
  | f_uid, f_uid | f_gid, f_gid | f_rdev, f_rdev | f_pad1, f_pad1
  | f_size, f_size | f_blksize, f_blksize | f_pad2, f_pad2
  | f_blocks, f_blocks | f_atime, f_atime | f_atime_nsec, f_atime_nsec
  | f_mtime, f_mtime | f_mtime_nsec, f_mtime_nsec | f_ctime, f_ctime
  | f_ctime_nsec, f_ctime_nsec | f_unused4, f_unused4
  | f_unused5, f_unused5 => true
  | _, _ => false
  end.

(** The members of [struct unknown_stat], in declaration order. *)
Definition unknown_stat : list (field * ctype) :=
  [ (f_dev, ulong_t); (f_ino, ulong_t);
    (f_mode, uint_t); (f_nlink, uint_t); (f_uid, uint_t); (f_gid, uint_t);
    (f_rdev, ulong_t); (f_pad1, ulong_t);
    (f_size, long_t);
    (f_blksize, int_t); (f_pad2, int_t);
    (f_blocks, long_t);
    (f_atime, long_t); (f_atime_nsec, ulong_t);
    (f_mtime, long_t); (f_mtime_nsec, ulong_t);
    (f_ctime, long_t); (f_ctime_nsec, ulong_t);
    (f_unused4, uint_t); (f_unused5, uint_t) ].

(** C struct layout: each member sits at the next offset that is a
    multiple of its size. *)
Definition align_up (off a : Z) : Z := (off + a - 1) / a * a.

Fixpoint layout (x : xlen_t) (off : Z) (fs : list (field * ctype))
  : list (field * (Z * ctype)) :=
  match fs with
  | [] => []
  | (f, t) :: rest =>
      let o := align_up off (sizeof x t) in
      (f, (o, t)) :: layout x (o + sizeof x t) rest
  end.

Fixpoint lookup_field (f : field) (l : list (field * (Z * ctype)))
  : option (Z * ctype) :=
  match l with
  | [] => None
  | (g, e) :: rest => if field_eqb f g then Some e else lookup_field f rest
  end.

Definition member (x : xlen_t) (f : field) : Z * ctype :=
  match lookup_field f (layout x 0 unknown_stat) with
  | Some e => e
  | None => (0, uint_t)
  end.

Definition offsetof (x : xlen_t) (f : field) : Z := fst (member x f).
Definition typeof (x : xlen_t) (f : field) : ctype := snd (member x f).
Definition widthof (x : xlen_t) (f : field) : Z := sizeof x (typeof x f).

(** [abi_stat->f = v]. *)
Definition assign (x : xlen_t) (abi_stat : Z) (f : field) (v : Z) (m : memory)
  : memory :=
  store_le m (abi_stat + offsetof x f) (Z.to_nat (widthof x f)) v.

(** Reading member [f] of the structure at [abi_stat]. *)
Definition read_member (x : xlen_t) (m : memory) (abi_stat : Z) (f : field) : Z :=
  let raw := load_le m (abi_stat + offsetof x f) (Z.to_nat (widthof x f)) in
  if is_signed (typeof x f) then signed (8 * widthof x f) raw else raw.

Definition cvt_unknown_stat (x : xlen_t) (abi_stat : Z) (host_stat : host_stat)
    (m : memory) : memory :=
  let m := assign x abi_stat f_dev (st_dev host_stat) m in
  let m := assign x abi_stat f_ino (st_ino host_stat) m in
  let m := assign x abi_stat f_mode (st_mode host_stat) m in
  let m := assign x abi_stat f_nlink (st_nlink host_stat) m in
  let m := assign x abi_stat f_uid (st_uid host_stat) m in
  let m := assign x abi_stat f_gid (st_gid host_stat) m in
  let m := assign x abi_stat f_rdev (st_rdev host_stat) m in
  let m := assign x abi_stat f_size (st_size host_stat) m in
  let m := assign x abi_stat f_blocks (st_blocks host_stat) m in
  let m := assign x abi_stat f_blksize (st_blksize host_stat) m in
  let m := assign x abi_stat f_atime (st_atim_sec host_stat) m in
  let m := assign x abi_stat f_atime_nsec (st_atim_nsec host_stat) m in
  let m := assign x abi_stat f_mtime (st_mtim_sec host_stat) m in
  let m := assign x abi_stat f_mtime_nsec (st_mtim_nsec host_stat) m in
  let m := assign x abi_stat f_ctime (st_ctim_sec host_stat) m in
  let m := assign x abi_stat f_ctime_nsec (st_ctim_nsec host_stat) m in
  m.

(** Modelled from the spec: [round_up] of the utility headers, which are
    not under src/ ("rounds ... up to the host page size"), on 64-bit
    unsigned words. *)
Definition round_up (v n : Z) : Z := u64 (u64 (v + n - 1) / n * n).

(** *** The syscall proxies *)

Section Proxy.
Variable T : target.
Variable H : host.

(** The argument registers as the proxies read them. *)
Definition a0 (proc : processor) : Z := ireg proc riscv_ireg_a0.
Definition a1 (proc : processor) : Z := ireg proc riscv_ireg_a1.
Definition a2 (proc : processor) : Z := ireg proc riscv_ireg_a2.
Definition set_a0 (proc : processor) (v : Z) : processor :=
  set_ireg (xlen T) proc riscv_ireg_a0 v.

Definition sys_close (proc : processor) : M processor :=
  r <- close H (to_int (reg_val T (a0 proc))) ;;
  ret (set_a0 proc r).

Definition sys_write (proc : processor) : M processor :=
  r <- write H (to_int (reg_val T (a0 proc)))
         (to_uintptr (reg_val T (a1 proc)))
         (to_uintptr (reg_val T (a2 proc))) ;;
  ret (set_a0 proc r).

Definition sys_fstat (proc : processor) : M processor :=
  rs <- fstat H (to_int (reg_val T (a0 proc))) ;;
  let proc := set_a0 proc (fst rs) in
  if reg_val T (a0 proc) =? 0 then
    let abi_stat := to_uintptr (a1 proc) in
    fun w => Normal proc (with_mem w (cvt_unknown_stat (xlen T) abi_stat (snd rs) (mem w)))
  else ret proc.

Definition sys_exit (proc : processor) : M processor :=
  exit (to_int (reg_val T (a0 proc))).

Definition sys_brk (proc : processor) : M processor :=
  let new_addr := to_uintptr (reg_val T (a0 proc)) in
  let curr_heap_end := round_up (heap_end proc) (page_size T) in
  let new_heap_end := round_up new_addr (page_size T) in
  if (new_heap_end <=? heap_end proc) || (new_heap_end =? curr_heap_end) then
    ret (set_a0 proc new_addr)
  else
    addr <- mmap H curr_heap_end (u64 (new_heap_end - curr_heap_end))
              (Z.lor PROT_READ PROT_WRITE)
              (Z.lor (Z.lor MAP_FIXED MAP_ANONYMOUS) MAP_PRIVATE) (-1) 0 ;;
    match addr with
    | None =>
        e <- get_errno ;;
        debug "brk: error: mmap: %s" [AStrerror e] ;;;
        ret (set_a0 proc (- ENOMEM))
    | Some _ =>
        let proc := push_segment proc
                      (curr_heap_end, u64 (new_heap_end - curr_heap_end)) in
        let proc := set_heap_end proc new_heap_end in
        (if negb (Z.land (flags proc) (processor_flag_emulator_debug T) =? 0)
         then debug "brk: mmap: 0x%016lx - 0x%016lx +R+W"
                [AInt curr_heap_end; AInt new_heap_end]
         else ret tt) ;;;
        ret (set_a0 proc new_addr)
    end.

Definition proxy_syscall (proc : processor) : M processor :=
  let n := reg_val T (ireg proc riscv_ireg_a7) in
  if n =? riscv_syscall_close T then sys_close proc
  else if n =? riscv_syscall_write T then sys_write proc
  else if n =? riscv_syscall_fstat T then sys_fstat proc
  else if n =? riscv_syscall_exit T then sys_exit proc
  else if n =? riscv_syscall_brk T then sys_brk proc
  else panic "unknown syscall: %d" [AInt n].

End Proxy.

End Abi.

(* ------------------------------------------------------------------ *)
(** ** The emulator (app/riscv-test-emulate.cc) *)

Module Emulator.
Import Word Mem Codec Machine HostCalls Abi.
Local Open Scope emu_scope.

(** *** The stepper with its decode cache *)

(** What a processor unit ([riscv_processor_rv64imafdc_unit<T>], ...)
    provides to the runner.  [decode_inst] overwrites a record in place;
    [exec_inst] works on the processor and on guest memory and answers
    whether it handled the instruction.  Both are generated code that is
    not under src/. *)
Record unit_ops : Type := mk_unit {
  u_decode_inst : decode -> Z -> decode;
  u_exec_inst : decode -> Z -> processor -> memory -> bool * processor * memory
}.

Definition inst_cache_size : Z := 8191.

Record riscv_inst_cache_ent : Type := mk_ent {
  ent_inst : Z;
  ent_dec : decode
}.

(** [inst_cache[...]], indexed by the key. *)
Definition cache : Type := Z -> riscv_inst_cache_ent.

Definition cache_set (c : cache) (k : Z) (e : riscv_inst_cache_ent) : cache :=
  fun k' => if k' =? k then e else c k'.

(** The runner: the processor, the cache, and the local [dec] of [step],
    which lives across the iterations of its loop. *)
Record runner : Type := mk_runner {
  proc : processor;
  inst_cache : cache;
  dec : decode
}.

(** What one iteration of the loop of [step] ends in. *)
Inductive flow : Type :=
| Continue
| Return (b : bool).

(** [format_inst]. *)
Definition format_inst (m : memory) (pc_ : Z) : inst_text :=
  let '(inst, inst_length) := inst_fetch m pc_ in
  if inst_length =? 2 then Hex 8 inst
  else if inst_length =? 4 then Hex 8 inst
  else if inst_length =? 6 then Hex 12 inst
  else if inst_length =? 8 then Hex 16 inst
  else Invalid.

Section Runner.
Variable T : target.
Variable U : unit_ops.
Variable H : host.
(** [inst_cache_size], a parameter so that runs with different cache
    sizes can be compared. *)
Variable cache_size : Z.

(** Lines 279-286: the cache lookup.  Returns the record to execute and
    the cache afterwards. *)
Definition cache_lookup (c : cache) (dec0 : decode) (inst : Z) : decode * cache :=
  let inst_cache_key := inst mod cache_size in
  if ent_inst (c inst_cache_key) =? inst then
    (ent_dec (c inst_cache_key), c)
  else
    let dec1 := u_decode_inst U dec0 inst in
    (dec1, cache_set c inst_cache_key (mk_ent inst dec1)).

Definition print_int_regeisters (p : processor) : M unit :=
  fun w => Normal tt (emit (EvPrintRegs (map (fun i => ireg p (Z.of_nat i)) (seq 0 32))) w).

Definition print_disassembly (p : processor) (d : decode) : M unit :=
  fun w => Normal tt
    (emit (EvPrintDisasm (hart_id p) (to_uintptr (pc p)) (format_inst (mem w) (pc p)) d) w).

(** One iteration of the [while] loop of [step]. *)
Definition step_body (st : runner) : M (flow * runner) :=
  fun w =>
    let p := proc st in
    let '(inst, inst_length) := inst_fetch (mem w) (pc p) in
    let '(d, c) := cache_lookup (inst_cache st) (dec st) inst in
    ((if log_registers p then print_int_regeisters p else ret tt) ;;;
     (if log_instructions p then print_disassembly p d else ret tt) ;;;
     (fun w1 =>
        let '(handled, p1, m1) := u_exec_inst U d inst_length p (mem w1) in
        let w2 := with_mem w1 m1 in
        if handled then Normal (Continue, mk_runner p1 c d) w2
        else if op d =? riscv_op_ecall T then
          (p2 <- proxy_syscall T H p1 ;;
           let p3 := set_pc p2 (wrap (bits (xlen T)) (pc p2 + inst_length)) in
           ret (Continue, mk_runner p3 c d)) w2
        else
          (debug "illegal instruciton: pc=0x%tx inst=%s"
             [AInt (to_uintptr (pc p1)); AInst (format_inst m1 (pc p1))] ;;;
           ret (Return false, mk_runner p1 c d)) w2)) w.

(** The loop of [step], run for at most [fuel] iterations; [None] when
    the loop has not ended by then. *)
Fixpoint step_loop (fuel : nat) (st : runner) : M (option bool * runner) :=
  match fuel with
  | O => ret (None, st)
  | S fuel' =>
      r <- step_body st ;;
      match fst r with
      | Continue => step_loop fuel' (snd r)
      | Return b => ret (Some b, snd r)
      end
  end.

(** [step(count)].  The source never increments [i], so the loop
    condition [i < count] is [0 < count] at every test. *)
Definition step (fuel : nat) (count : Z) (st : runner) : M (option bool * runner) :=
  let st := mk_runner (proc st) (inst_cache st) decode_init in
  let i := 0 in
  if i <? count then step_loop fuel st
  else ret (Some true, st).

End Runner.

(** *** The loader *)

(** <elf.h> values of riscv-elf.h, which is not under src/. *)
Definition PT_LOAD : Z := 1.
Definition PF_X : Z := 1.
Definition PF_W : Z := 2.
Definition PF_R : Z := 4.

Record Elf64_Phdr : Type := mk_phdr {
  p_type : Z;
  p_flags : Z;
  p_offset : Z;
  p_vaddr : Z;
  p_paddr : Z;
  p_filesz : Z;
  p_memsz : Z;
  p_align : Z
}.


Definition stack_top : Z := 0x78000000.
Definition stack_size : Z := 0x01000000.

Definition elf_p_flags_mmap (v : Z) : Z :=
  let prot := 0 in
  let prot := if negb (Z.land v PF_X =? 0) then Z.lor prot PROT_EXEC else prot in
  let prot := if negb (Z.land v PF_W =? 0) then Z.lor prot PROT_WRITE else prot in
  let prot := if negb (Z.land v PF_R =? 0) then Z.lor prot PROT_READ else prot in
  prot.

Section Loader.
Variable T : target.
Variable U : unit_ops.
Variable H : host.
Variable emulator_debug : bool.

Definition map_stack (p : processor) (stack_top stack_size : Z) : M processor :=
  addr <- mmap H (u64 (stack_top - stack_size)) stack_size
            (Z.lor PROT_READ PROT_WRITE)
            (Z.lor (Z.lor MAP_FIXED MAP_ANONYMOUS) MAP_PRIVATE) (-1) 0 ;;
  match addr with
  | None =>
      e <- get_errno ;;
      panic "map_stack: error: mmap: %s" [AStrerror e]
  | Some _ =>
      let p := push_segment p (u64 (stack_top - stack_size), stack_size) in
      let p := set_ireg (xlen T) p riscv_ireg_sp (stack_top - 8) in
      (if emulator_debug
       then debug "sp : mmap: 0x%016lx - 0x%016lx +R+W"
              [AInt (u64 (stack_top - stack_size)); AInt stack_top]
       else ret tt) ;;;
      ret p
  end.

Definition map_load_segment (p : processor) (filename : string)
    (phdr : Elf64_Phdr) : M processor :=
  fd <- open H filename O_RDONLY ;;
  if fd <? 0 then
    e <- get_errno ;;
    panic "map_executable: error: open: %s: %s" [AStr filename; AStrerror e]
  else
    addr <- mmap H (p_vaddr phdr) (p_memsz phdr)
              (elf_p_flags_mmap (p_flags phdr))
              (Z.lor MAP_FIXED MAP_PRIVATE) fd (p_offset phdr) ;;
    close H fd ;;;
    match addr with
    | None =>
        e <- get_errno ;;
        panic "map_executable: error: mmap: %s: %s" [AStr filename; AStrerror e]
    | Some _ =>
        let p := push_segment p (p_vaddr phdr, p_memsz phdr) in
        let seg_end := u64 (p_vaddr phdr + p_memsz phdr) in
        let p := if heap_begin p <? seg_end
                 then set_heap_end (set_heap_begin p seg_end) seg_end
                 else p in
        (if emulator_debug
         then debug "elf: mmap: 0x%016lx - 0x%016lx %s"
                [AInt (p_vaddr phdr); AInt seg_end; AInt (p_flags phdr)]
         else ret tt) ;;;
        ret p
    end.

(** The loop of [start] over the program headers. *)
Fixpoint map_load_segments (p : processor) (filename : string)
    (hs : list Elf64_Phdr) : M processor :=
  match hs with
  | [] => ret p
  | phdr :: rest =>
      p' <- (if negb (Z.land (p_flags phdr) PT_LOAD =? 0)
             then map_load_segment p filename phdr
             else ret p) ;;
      map_load_segments p' filename rest
  end.

(** [while (proc.step(1024));], for at most [calls] calls of [step], each
    running its loop for at most [fuel] iterations.  [None] when the
    emulation has not ended by then. *)
Fixpoint step_until_halt (calls fuel : nat) (st : runner) : M (option runner) :=
  match calls with
  | O => ret None
  | S calls' =>
      r <- step T U H inst_cache_size fuel 1024 st ;;
      match fst r with
      | Some true => step_until_halt calls' fuel (snd r)
      | Some false => ret (Some (snd r))
      | None => ret None
      end
  end.

Fixpoint unmap_segments (segs : list (Z * Z)) : M unit :=
  match segs with
  | [] => ret tt
  | seg :: rest => munmap (fst seg) (snd seg) ;;; unmap_segments rest
  end.

(** The processor as constructed: [riscv_processor_base()] zeroes its
    own fields. *)
Definition proc_init : processor :=
  mk_processor 0 (fun _ => 0) 0 0 [] 0 0 false false.


End Loader.

End Emulator.

(* ------------------------------------------------------------------ *)
(** ** ISA selection and the table-driven rewrites *)

Module Cmdline.
Import Word Mem Codec.

(** A C string is its characters up to the terminating NUL: the first
    character of the empty string is NUL. *)
Definition first_char (s : string) : Z :=
  match s with
  | EmptyString => 0
  | String c _ => Z.of_N (Ascii.N_of_ascii c)
  end.

Definition rest (s : string) : string :=
  match s with
  | EmptyString => EmptyString
  | String _ s' => s'
  end.

(** [tolower] of <ctype.h> in the C locale. *)
Definition tolower (c : Z) : Z :=
  if (65 <=? c) && (c <=? 90) then c + 32 else c.

(** [strncasecmp] of <strings.h>: compares at most [n] characters without
    regard to case, stopping at a difference or at the end of the strings;
    the result is the difference of the two characters where it stopped. *)
Fixpoint strncasecmp (s1 s2 : string) (n : nat) : Z :=
  match n with
  | O => 0
  | S n' =>
      let c1 := tolower (first_char s1) in
      let c2 := tolower (first_char s2) in
      if negb (c1 =? c2) then c1 - c2
      else if c1 =? 0 then 0
      else strncasecmp (rest s1) (rest s2) n'
  end.

Inductive rv_isa : Type :=
| rv_isa_none
| rv_isa_ima
| rv_isa_imac
| rv_isa_imafd
| rv_isa_imafdc.

(** [riscv_emulator::decode_isa_ext]; [isa_ext.size()] is the length. *)
Definition decode_isa_ext (isa_ext : string) : rv_isa :=
  if strncasecmp isa_ext "IMA"%string (String.length isa_ext) =? 0 then rv_isa_ima
  else if strncasecmp isa_ext "IMAC"%string (String.length isa_ext) =? 0 then rv_isa_imac
  else if strncasecmp isa_ext "IMAFD"%string (String.length isa_ext) =? 0 then rv_isa_imafd
  else if strncasecmp isa_ext "IMAFDC"%string (String.length isa_ext) =? 0 then rv_isa_imafdc
  else rv_isa_none.

(** The string with every upper-case letter replaced by its lower-case
    letter. *)
Definition lower_char (c : Ascii.ascii) : Ascii.ascii :=
  Ascii.ascii_of_N (Z.to_N (tolower (Z.of_N (Ascii.N_of_ascii c)))).

Fixpoint lower (s : string) : string :=
  match s with
  | EmptyString => EmptyString
  | String c s' => String (lower_char c) (lower s')
  end.

(** No character of the string is NUL (true of every command-line
    argument). *)
Fixpoint no_nul (s : string) : bool :=
  match s with
  | EmptyString => true
  | String c s' => negb (Z.of_N (Ascii.N_of_ascii c) =? 0) && no_nul s'
  end.

(** All prefixes of a string, shortest first. *)
Fixpoint prefixes (t : string) : list string :=
  match t with
  | EmptyString => [EmptyString]
  | String b t' => EmptyString :: map (String b) (prefixes t')
  end.

End Cmdline.

(* ------------------------------------------------------------------ *)
(** ** Observations on the proxies, used to state their properties *)

Module Observe.
Import Word Mem Codec Machine HostCalls Abi Emulator.
Local Open Scope emu_scope.

Section Proxy.
Variable T : target.
Variable H : host.

(** The address [sys_brk] is asked for, as the [uintptr_t] it computes. *)
Definition brk_request (p : processor) : Z := to_uintptr (reg_val T (a0 p)).

(** The guard of [sys_brk] fails: the proxy goes on to map memory. *)
Definition brk_grows (p : processor) : bool :=
  negb ((round_up (brk_request p) (page_size T) <=? heap_end p)
        || (round_up (brk_request p) (page_size T)
            =? round_up (heap_end p) (page_size T))).

(** The [mmap] call [sys_brk] makes when it grows the heap. *)
Definition brk_mmap_event (p : processor) : event :=
  let curr_heap_end := round_up (heap_end p) (page_size T) in
  let new_heap_end := round_up (brk_request p) (page_size T) in
  EvMmap curr_heap_end (u64 (new_heap_end - curr_heap_end))
    (Z.lor PROT_READ PROT_WRITE)
    (Z.lor (Z.lor MAP_FIXED MAP_ANONYMOUS) MAP_PRIVATE) (-1) 0.

(** The host's answer to that call. *)
Definition brk_mmap_answer (p : processor) (w : world) : memory + Z :=
  let curr_heap_end := round_up (heap_end p) (page_size T) in
  let new_heap_end := round_up (brk_request p) (page_size T) in
  host_mmap H (emit (brk_mmap_event p) w)
    curr_heap_end (u64 (new_heap_end - curr_heap_end))
    (Z.lor PROT_READ PROT_WRITE)
    (Z.lor (Z.lor MAP_FIXED MAP_ANONYMOUS) MAP_PRIVATE) (-1) 0.

(** The host calls of [sys_write] and [sys_fstat] and the host's answers:
    the value the C function returns and [errno] afterwards. *)
Definition write_event (p : processor) : event :=
  EvWrite (to_int (reg_val T (a0 p))) (to_uintptr (reg_val T (a1 p)))
    (to_uintptr (reg_val T (a2 p))).

Definition write_answer (p : processor) (w : world) : Z * Z :=
  let '(r, e) := host_write H (emit (write_event p) w)
                   (to_int (reg_val T (a0 p))) (to_uintptr (reg_val T (a1 p)))
                   (to_uintptr (reg_val T (a2 p))) in
  (to_ssize r, e).

Definition fstat_event (p : processor) : event :=
  EvFstat (to_int (reg_val T (a0 p))).

Definition fstat_answer (p : processor) (w : world) : Z * Z * host_stat :=
  let '(r, e, s) := host_fstat H (emit (fstat_event p) w)
                      (to_int (reg_val T (a0 p))) in
  (to_int r, e, s).

End Proxy.

(** The members [cvt_unknown_stat] assigns, with the host values, in the
    order of the assignments. *)
Definition assigned (hs : host_stat) : list (field * Z) :=
  [ (f_dev, st_dev hs); (f_ino, st_ino hs); (f_mode, st_mode hs);
    (f_nlink, st_nlink hs); (f_uid, st_uid hs); (f_gid, st_gid hs);
    (f_rdev, st_rdev hs); (f_size, st_size hs); (f_blocks, st_blocks hs);
    (f_blksize, st_blksize hs);
    (f_atime, st_atim_sec hs); (f_atime_nsec, st_atim_nsec hs);
    (f_mtime, st_mtim_sec hs); (f_mtime_nsec, st_mtim_nsec hs);
    (f_ctime, st_ctim_sec hs); (f_ctime_nsec, st_ctim_nsec hs) ].

(** The members no assignment names. *)
Definition padding : list field := [f_pad1; f_pad2; f_unused4; f_unused5].

(** The value a member of type [t] holds after [v] is assigned to it. *)
Definition fit (x : xlen_t) (t : ctype) (v : Z) : Z :=
  if is_signed t then signed (8 * sizeof x t) v else wrap (8 * sizeof x t) v.

(** The structure as the specification documents it: the members in order,
    each with its size in bits (XLEN for ulong_t and long_t, 32 otherwise),
    one directly after the other. *)
Definition documented_stat (x : xlen_t) : list (field * Z) :=
  let X := bits x in
  [ (f_dev, X); (f_ino, X); (f_mode, 32); (f_nlink, 32); (f_uid, 32);
    (f_gid, 32); (f_rdev, X); (f_pad1, X); (f_size, X); (f_blksize, 32);
    (f_pad2, 32); (f_blocks, X); (f_atime, X); (f_atime_nsec, X);
    (f_mtime, X); (f_mtime_nsec, X); (f_ctime, X); (f_ctime_nsec, X);
    (f_unused4, 32); (f_unused5, 32) ].

(** Byte offset and byte size of each documented member. *)
Fixpoint packed (off : Z) (fs : list (field * Z)) : list (field * (Z * Z)) :=
  match fs with
  | [] => []
  | (f, b) :: rest => (f, (off, b / 8)) :: packed (off + b / 8) rest
  end.

(** Byte offset and byte size of each member of the C structure. *)
Definition c_layout (x : xlen_t) : list (field * (Z * Z)) :=
  map (fun e => (fst e, (fst (snd e), sizeof x (snd (snd e)))))
    (layout x 0 unknown_stat).


(** The bytes of member [f], as an unsigned number. *)
Definition raw_member (x : xlen_t) (m : memory) (abi_stat : Z) (f : field) : Z :=
  load_le m (abi_stat + offsetof x f) (Z.to_nat (widthof x f)).

(** The assignments of a list, one after the other. *)
Definition assign_all (x : xlen_t) (a : Z) (l : list (field * Z)) (m : memory)
  : memory :=
  fold_left (fun m fv => assign x a (fst fv) (snd fv) m) l m.

(** *** The stepper *)

Section Stepper.
Variable T : target.
Variable U : unit_ops.
Variable H : host.

(** The decoder's result depends on the instruction word only, not on what
    the record it overwrites held ("any field not named by the codec is
    zero"). *)
Definition overwrites_record : Prop :=
  forall (d d' : decode) (inst : Z), u_decode_inst U d inst = u_decode_inst U d' inst.

(** Every slot of a cache of [n] entries that a fetch can hit holds the
    decode of the word stored with it.  Slot [k] is hit only by a word [w]
    with [w mod n = k]. *)
Definition coherent (n : Z) (c : cache) : Prop :=
  forall k, 0 <= k < n -> ent_inst (c k) mod n = k ->
            ent_dec (c k) = u_decode_inst U decode_init (ent_inst (c k)).

(** The instruction word the next iteration fetches, its length, and the
    record the iteration executes. *)
Definition fetched_inst (st : runner) (w : world) : Z :=
  fst (inst_fetch (mem w) (pc (proc st))).

Definition fetched_length (st : runner) (w : world) : Z :=
  snd (inst_fetch (mem w) (pc (proc st))).

Definition executed_record (n : Z) (st : runner) (w : world) : decode :=
  fst (cache_lookup U n (inst_cache st) (dec st) (fetched_inst st w)).

(** What an iteration logs before it executes. *)
Definition logged (p : processor) (d : decode) (w : world) : list event :=
  (if log_registers p
   then [EvPrintRegs (map (fun i => ireg p (Z.of_nat i)) (seq 0 32))] else [])
  ++ (if log_instructions p
      then [EvPrintDisasm (hart_id p) (to_uintptr (pc p)) (format_inst (mem w) (pc p)) d]
      else []).

(** The part of an iteration after the cache lookup: it works on the
    processor and the world and leaves the cache alone. *)
Definition exec_phase (p : processor) (d : decode) (inst_length : Z)
  : M (flow * processor) :=
  (if log_registers p then print_int_regeisters p else ret tt) ;;;
  (if log_instructions p then print_disassembly p d else ret tt) ;;;
  (fun w1 =>
     let '(handled, p1, m1) := u_exec_inst U d inst_length p (mem w1) in
     let w2 := with_mem w1 m1 in
     if handled then Normal (Continue, p1) w2
     else if op d =? riscv_op_ecall T then
       (p2 <- proxy_syscall T H p1 ;;
        ret (Continue, set_pc p2 (wrap (bits (xlen T)) (pc p2 + inst_length)))) w2
     else
       (debug "illegal instruciton: pc=0x%tx inst=%s"
          [AInt (to_uintptr (pc p1)); AInst (format_inst m1 (pc p1))] ;;;
        ret (Return false, p1)) w2).

End Stepper.

(** The events that are calls into the host's kernel interface. *)
Definition is_host_call (e : event) : bool :=
  match e with
  | EvOpen _ _ | EvClose _ | EvWrite _ _ _ | EvFstat _
  | EvMmap _ _ _ _ _ _ | EvMunmap _ _ | EvExit _ => true
  | EvDebug _ _ | EvPanic _ _ | EvPrintRegs _ | EvPrintDisasm _ _ _ _ => false
  end.

(** The diagnostic of the stepper for processor [p] and memory [m]. *)
Definition illegal_diagnostic (p : processor) (m : memory) : event :=
  EvDebug "illegal instruciton: pc=0x%tx inst=%s"
    [AInt (to_uintptr (pc p)); AInst (format_inst m (pc p))].

(** Putting the cache and the local record back around the result of the
    execution phase. *)
Definition attach (c : cache) (d : decode) (o : outcome (flow * processor))
  : outcome (flow * runner) :=
  match o with
  | Normal (fl, p) w => Normal (fl, mk_runner p c d) w
  | Exited code w => Exited code w
  | Panicked w => Panicked w
  end.

(** What a run shows of itself: how it ended, the processor and the world,
    without the decode cache and the local record. *)
Definition observe {A} (o : outcome (A * runner)) : outcome (A * processor) :=
  match o with
  | Normal (a, st) w => Normal (a, proc st) w
  | Exited code w => Exited code w
  | Panicked w => Panicked w
  end.

(** The runner as [start] constructs it around processor [p]. *)
Definition fresh_runner (p : processor) (junk : Z -> Z) : runner :=
  mk_runner p (fun k => mk_ent (junk k) decode_init) decode_init.

End Observe.

(* ------------------------------------------------------------------ *)
(** ** Concrete targets, hosts and states on which the model is run *)

Module Samples.
Import Word Mem Codec Machine HostCalls Abi Emulator.

(** RV64 and RV32 on a Linux host with 4 KiB pages; syscall numbers of the
    RISC-V Linux ABI; 2 stands for the opcode id of [ecall]. *)
Definition rv64_linux : target := mk_target RV64 true 4096 1 57 64 80 93 214 2.
Definition rv32_linux : target := mk_target RV32 true 4096 1 57 64 80 93 214 2.

Definition EBADF : Z := 9.

Definition zero_stat : host_stat := mk_host_stat 0 0 0 0 0 0 0 0 0 0 0 0 0 0 0 0.

(** A regular file of 4 GiB, mode 0100644, modified at 1500000000. *)
Definition big_file_stat : host_stat :=
  mk_host_stat 2049 1234 33188 1 1000 1000 0 4294967296 8388608 4096
    1500000000 0 1500000000 0 1500000000 0.

(** A regular file of 1234 bytes. *)
Definition small_file_stat : host_stat :=
  mk_host_stat 2049 1234 33188 1 1000 1000 0 1234 8 4096
    1500000000 0 1500000000 0 1500000000 0.

(** A host on which every descriptor is bad and no memory can be mapped. *)
Definition refusing_host : host :=
  mk_host (fun _ _ _ => (-1, 2))
          (fun _ _ => (-1, EBADF))
          (fun _ _ _ _ => (-1, EBADF))
          (fun _ _ => (-1, EBADF, zero_stat))
          (fun _ _ _ _ _ _ _ => inr ENOMEM).

(** A host on which every call succeeds; [fstat] reports [s]; a mapping
    leaves memory as it is. *)
Definition willing_host (s : host_stat) : host :=
  mk_host (fun w _ _ => (3, errno w))
          (fun w _ => (0, errno w))
          (fun w _ _ n => (n, errno w))
          (fun w _ => (0, errno w, s))
          (fun w _ _ _ _ _ _ => inl (mem w)).

Definition empty_world : world := mk_world (fun _ => 0) 0 [].

(** A processor whose break is at 0x11234 and whose registers all hold
    [v]. *)
Definition proc_with_regs (v : Z) : processor :=
  mk_processor 0x10000 (fun _ => v) 0 0 [(0x10000, 0x1234)] 0x11234 0x11234
    false false.


(** A small processor unit: [addi] (opcode id 1) is executed by advancing
    the program counter, [ecall] (2) is left to the proxy, anything else is
    the illegal opcode (0).  It decodes with [decode_inst] of the codec. *)
Definition toy_decode_inst_op (inst : Z) : Z :=
  if Z.land inst 127 =? 19 then 1
  else if inst =? 115 then 2
  else 0.

Definition toy_decode_inst_type (d : decode) (inst : Z) : decode :=
  mk_decode (Z.shiftr inst 20) (rv_inst d) 0 (op d) (op d).

Definition toy_exec_inst (d : decode) (inst_length : Z) (p : processor) (m : memory)
  : bool * processor * memory :=
  if op d =? 1 then (true, set_pc p (pc p + inst_length), m)
  else (false, p, m).

Definition toy_unit : unit_ops :=
  mk_unit (decode_inst toy_decode_inst_op toy_decode_inst_type) toy_exec_inst.

(** Memory holding the word [v] (little-endian) at address [a], zero
    elsewhere. *)
Definition word_at (a v : Z) : memory := store_le (fun _ => 0) a 4 v.

(** [addi x0, x0, 0] at 0x10000, the all-zero word after it. *)
Definition nop_world : world := mk_world (word_at 0x10000 19) 0 [].

(** The all-zero word at 0x10000. *)
Definition zero_world : world := mk_world (fun _ => 0) 0 [].

(** A start-up cache in which slot 19 happens to hold the word 0x13. *)
Definition junk_19 (k : Z) : Z := if k =? 19 then 19 else 0.

(** Program headers: a read-write PT_LOAD header (a data segment), and a
    PT_NOTE header (type 4) flagged read-execute. *)
Definition data_phdr : Elf64_Phdr :=
  mk_phdr PT_LOAD (Z.lor PF_R PF_W) 0x1000 0x20000 0x20000 0x800 0x1000 0x1000.

Definition note_phdr : Elf64_Phdr :=
  mk_phdr 4 (Z.lor PF_R PF_X) 0x200 0x30000 0x30000 0x40 0x40 4.

End Samples.

(* ------------------------------------------------------------------ *)
(** ** Further observations: fetch, loader and command line *)

Module Observe2.
Import Word Mem Codec Machine HostCalls Abi Emulator Observe.

(** The body of [inst_fetch] as a function of the three reads it can make:
    the word at [addr], the half word and the word at [addr + 4]. *)
Definition fetch_of (w h16 h32 : Z) : Z * Z :=
  if negb (Z.land w 3 =? 3) then (Z.land w 65535, 2)
  else if negb (Z.land w 28 =? 28) then (w, 4)
  else if Z.land w 63 =? 31 then (Z.lor w (Z.shiftl h16 32), 6)
  else if Z.land w 127 =? 63 then (Z.lor w (Z.shiftl h32 32), 8)
  else (0, 8).

(** The number of hexadecimal digits [format_inst] prints for an
    instruction of [inst_length] bytes. *)
Definition hex_digits (inst_length : Z) : Z :=
  if inst_length <=? 4 then 8 else if inst_length =? 6 then 12 else 16.

(** The end address [map_load_segment] computes for a header. *)
Definition seg_end (h : Elf64_Phdr) : Z := u64 (p_vaddr h + p_memsz h).

(** The test of the loop of [start] on a header. *)
Definition passes_load_test (h : Elf64_Phdr) : bool :=
  negb (Z.land (p_flags h) PT_LOAD =? 0).

(** The headers the loop of [start] hands to [map_load_segment]. *)
Definition loaded (hs : list Elf64_Phdr) : list Elf64_Phdr :=
  filter passes_load_test hs.

(** Size in bytes of [unknown_stat<P>]: the end of its last member. *)
Definition sizeof_unknown_stat (x : xlen_t) : Z :=
  offsetof x f_unused5 + widthof x f_unused5.

(** The world after what an iteration of the stepper logs before it
    executes: the register dump, then the disassembly line. *)
Definition log_world (p : processor) (d : decode) (w : world) : world :=
  let w1 := if log_registers p
            then emit (EvPrintRegs (map (fun i => ireg p (Z.of_nat i)) (seq 0 32))) w
            else w in
  if log_instructions p
  then emit (EvPrintDisasm (hart_id p) (to_uintptr (pc p))
               (format_inst (mem w1) (pc p)) d) w1
  else w1.

(** What a proxied syscall may do to the processor: write a0, raise the
    break, append segments; nothing else. *)
Definition proxy_frame (p p' : processor) : Prop :=
  pc p' = pc p
  /\ (forall r, r <> riscv_ireg_a0 -> ireg p' r = ireg p r)
  /\ flags p' = flags p
  /\ hart_id p' = hart_id p
  /\ heap_begin p' = heap_begin p
  /\ log_registers p' = log_registers p
  /\ log_instructions p' = log_instructions p
  /\ heap_end p <= heap_end p'
  /\ (exists segs, mapped_segments p' = mapped_segments p ++ segs).

(** The number [proxy_syscall] dispatches on. *)
Definition syscall_number (T : target) (p : processor) : Z :=
  reg_val T (ireg p riscv_ireg_a7).

(** The descriptor [map_load_segment] gets from [open]. *)
Definition load_fd (H : host) (filename : string) (w : world) : Z :=
  to_int (fst (host_open H (emit (EvOpen filename O_RDONLY) w) filename O_RDONLY)).

(** The [mmap] call [map_load_segment] makes for a header, on descriptor
    [fd]. *)
Definition load_mmap_event (h : Elf64_Phdr) (fd : Z) : event :=
  EvMmap (p_vaddr h) (p_memsz h) (elf_p_flags_mmap (p_flags h))
    (Z.lor MAP_FIXED MAP_PRIVATE) fd (p_offset h).

Definition is_panic (e : event) : bool :=
  match e with EvPanic _ _ => true | _ => false end.





(** The [mmap] call of [map_stack] and the host's answer to it. *)
Definition stack_mmap_event (top size : Z) : event :=
  EvMmap (u64 (top - size)) size (Z.lor PROT_READ PROT_WRITE)
    (Z.lor (Z.lor MAP_FIXED MAP_ANONYMOUS) MAP_PRIVATE) (-1) 0.

Definition stack_mmap_answer (H : host) (top size : Z) (w : world) : memory + Z :=
  host_mmap H (emit (stack_mmap_event top size) w)
    (u64 (top - size)) size (Z.lor PROT_READ PROT_WRITE)
    (Z.lor (Z.lor MAP_FIXED MAP_ANONYMOUS) MAP_PRIVATE) (-1) 0.

End Observe2.

Module Samples2.
Import Word Mem Codec Machine HostCalls Abi Emulator Observe Samples.

(** [ecall] at 0x10000. *)
Definition ecall_world : world := mk_world (word_at 0x10000 115) 0 [].

(** A text segment and a data segment the loader's test lets through. *)
Definition text_phdr : Elf64_Phdr :=
  mk_phdr PT_LOAD (Z.lor PF_R PF_X) 0 0x10000 0x10000 0x1234 0x1234 0x1000.

Definition rwx_phdr : Elf64_Phdr :=
  mk_phdr PT_LOAD (Z.lor (Z.lor PF_R PF_W) PF_X) 0x2000 0x20000 0x20000 0x100 0x800 0x1000.

End Samples2.

(* ------------------------------------------------------------------ *)
(** * Properties of machine words and memory *)

Module WordFacts.
Import Word.

Lemma wrap_range w x : 0 <= w -> 0 <= wrap w x < 2 ^ w.
Proof. intros Hw. unfold wrap. apply Z.mod_pos_bound. lia. Qed.

Lemma wrap_small w x : 0 <= x < 2 ^ w -> wrap w x = x.
Proof. intros H. unfold wrap. apply Z.mod_small. exact H. Qed.

Lemma wrap_idem w x : 0 <= w -> wrap w (wrap w x) = wrap w x.
Proof. intros Hw. apply wrap_small. apply wrap_range. exact Hw. Qed.

(** The powers of two of the word sizes, as numerals, for [lia]. *)
Ltac pow2_numerals :=
  change (2 ^ 31) with 2147483648 in *;
  change (2 ^ 32) with 4294967296 in *;
  change (2 ^ 63) with 9223372036854775808 in *;
  change (2 ^ 64) with 18446744073709551616 in *.

(** Case analysis on every conditional of the goal. *)
Ltac split_ifs :=
  repeat match goal with
         | |- context [if ?c then _ else _] => destruct c eqn:?
         end;
  repeat match goal with
         | E : (_ <? _) = true |- _ => apply Z.ltb_lt in E
         | E : (_ <? _) = false |- _ => apply Z.ltb_ge in E
         end.

End WordFacts.

Module MemFacts.
Import Word Mem.

Lemma store_le_outside (n : nat) : forall m a v a',
  a' < a \/ a + Z.of_nat n <= a' -> store_le m a n v a' = m a'.
Proof.
  induction n as [| n IH]; intros m a v a' Hout; simpl; [reflexivity |].
  rewrite IH by lia. unfold write_byte.
  destruct (Z.eqb_spec a' a); [lia | reflexivity].
Qed.

Lemma load_le_ext (n : nat) : forall m m' a,
  (forall a', a <= a' < a + Z.of_nat n -> m a' = m' a') ->
  load_le m a n = load_le m' a n.
Proof.
  induction n as [| n IH]; intros m m' a Hsame; simpl; [reflexivity |].
  rewrite (Hsame a) by lia.
  rewrite (IH m m' (a + 1)); [reflexivity |].
  intros a' Ha'. apply Hsame. lia.
Qed.

Lemma load_store_same (n : nat) : forall m a v,
  load_le (store_le m a n v) a n = v mod 256 ^ Z.of_nat n.
Proof.
  induction n as [| n IH]; intros m a v.
  - simpl. rewrite Z.mod_1_r. reflexivity.
  - cbn [store_le load_le]. rewrite IH.
    rewrite store_le_outside by lia.
    unfold write_byte. rewrite Z.eqb_refl, Z.mod_mod by lia.
    rewrite Nat2Z.inj_succ, Z.pow_succ_r by lia.
    rewrite Z.rem_mul_r by lia. reflexivity.
Qed.

Lemma load_store_disjoint (n n' : nat) (m : memory) (a a' v : Z) :
  a' + Z.of_nat n' <= a \/ a + Z.of_nat n <= a' ->
  load_le (store_le m a n v) a' n' = load_le m a' n'.
Proof.
  intros Hd. apply load_le_ext. intros b Hb.
  apply store_le_outside. lia.
Qed.

Lemma load_le_range (n : nat) : forall m a, 0 <= load_le m a n < 256 ^ Z.of_nat n.
Proof.
  induction n as [| n IH]; intros m a.
  - simpl. lia.
  - cbn [load_le]. rewrite Nat2Z.inj_succ, Z.pow_succ_r by lia.
    pose proof (IH m (a + 1)). pose proof (Z.mod_pos_bound (m a) 256). lia.
Qed.

End MemFacts.

(* ------------------------------------------------------------------ *)
(** * Properties of the codec *)

Module CodecFacts.
Import Word Mem Codec.

Lemma land_low7 (w m : Z) : Z.land m 127 = m -> Z.land w m = Z.land (w mod 128) m.
Proof.
  intros Hm. rewrite <- Hm at 1.
  rewrite (Z.land_comm m 127), Z.land_assoc.
  change 127 with (Z.ones 7). rewrite Z.land_ones by lia. reflexivity.
Qed.

Lemma inst_length_low7 (w : Z) : inst_length w = inst_length (w mod 128).
Proof.
  unfold inst_length.
  rewrite (land_low7 w 3), (land_low7 w 28), (land_low7 w 63), (land_low7 w 127)
    by reflexivity.
  reflexivity.
Qed.

Lemma low_bits_low7 (k w : Z) :
  In k [2; 6; 7] -> low_bits k w = low_bits k (w mod 128).
Proof.
  unfold low_bits. simpl.
  intros [<- | [<- | [<- | []]]];
    change (2 ^ 2) with 4; change (2 ^ 6) with 64; change (2 ^ 7) with 128;
    Z.div_mod_to_equations; lia.
Qed.

Lemma bits_4_2_low7 (w : Z) : bits_4_2 w = bits_4_2 (w mod 128).
Proof. unfold bits_4_2. Z.div_mod_to_equations. lia. Qed.

Lemma length_case_ok_low7 (w : Z) : length_case_ok w = length_case_ok (w mod 128).
Proof.
  unfold length_case_ok, inst_length_spec, cases_matching,
    is_len2, is_len4, is_len6, is_len8.
  rewrite (inst_length_low7 w), (bits_4_2_low7 w).
  rewrite (low_bits_low7 2 w), (low_bits_low7 6 w), (low_bits_low7 7 w)
    by (simpl; tauto).
  reflexivity.
Qed.

Lemma residues_complete (r : Z) : 0 <= r < 128 -> In r residues.
Proof.
  intros Hr. unfold residues. apply in_map_iff.
  exists (Z.to_nat r). split; [lia |]. apply in_seq. lia.
Qed.

Lemma length_case_ok_residues : forallb length_case_ok residues = true.
Proof. vm_compute. reflexivity. Qed.

Lemma length_case_ok_all (w : Z) : length_case_ok w = true.
Proof.
  rewrite length_case_ok_low7.
  pose proof length_case_ok_residues as H.
  rewrite forallb_forall in H. apply H, residues_complete.
  apply Z.mod_pos_bound. lia.
Qed.

(** C6: for every 64-bit instruction word the length classifier returns one
    of 2, 4, 6, 8 or the illegal marker 0; it returns 2, 4, 6, 8 exactly in
    the four bit-pattern cases of the specification (low two bits not 11;
    low two bits 11 and bits [4:2] not 111; low six bits 011111; low seven
    bits 0111111), returns the illegal marker exactly when no case applies,
    and at most one case applies to any word. *)
Theorem C6_inst_length_cases (w : Z) (Hw : 0 <= w < 2 ^ 64) :
  inst_length w = inst_length_spec w
  /\ In (inst_length w) [2; 4; 6; 8; 0]
  /\ (inst_length w = 2 <-> is_len2 w = true)
  /\ (inst_length w = 4 <-> is_len4 w = true)
  /\ (inst_length w = 6 <-> is_len6 w = true)
  /\ (inst_length w = 8 <-> is_len8 w = true)
  /\ (inst_length w = 0 <-> cases_matching w = 0%nat)
  /\ (cases_matching w <= 1)%nat.
Proof.
  pose proof (length_case_ok_all w) as H. unfold length_case_ok in H.
  repeat (apply andb_prop in H; destruct H as [H ?]).
  repeat match goal with
         | E : Bool.eqb _ _ = true |- _ => apply Bool.eqb_prop in E
         | E : Nat.leb _ _ = true |- _ => apply Nat.leb_le in E
         end.
  apply Z.eqb_eq in H.
  assert (Hiff : forall n b, (inst_length w =? n) = b ->
                             (inst_length w = n <-> b = true)).
  { intros n b <-. symmetry. apply Z.eqb_eq. }
  repeat split; try (apply Hiff; assumption); try assumption.
  - rewrite H. unfold inst_length_spec.
    repeat match goal with |- context [if ?b then _ else _] => destruct b end;
      simpl; tauto.
  - intros E. apply Nat.eqb_eq. apply (proj1 (Hiff _ _ ltac:(eassumption))). exact E.
  - intros E. apply (proj2 (Hiff _ _ ltac:(eassumption))). apply Nat.eqb_eq. exact E.
Qed.

Lemma C6_inst_length_cases_witness :
  0 <= 19 < 2 ^ 64 /\ inst_length 19 = 4.
Proof.
  split; [lia |].
  destruct (C6_inst_length_cases 19 ltac:(lia)) as [E _].
  rewrite E. reflexivity.
Defined.

End CodecFacts.

(* ------------------------------------------------------------------ *)
(** * Properties of the brk proxy *)

Module BrkFacts.
Import Word Mem Codec Machine HostCalls Abi Observe WordFacts.

Lemma u64_range (v : Z) : 0 <= u64 v < 2 ^ 64.
Proof. apply wrap_range. lia. Qed.

(** [round_up] never wraps in its multiplication. *)
Lemma round_up_quot (v n : Z) :
  0 < n -> round_up v n = u64 (v + n - 1) / n * n.
Proof.
  intros Hn. unfold round_up.
  pose proof (u64_range (v + n - 1)) as Hr.
  apply wrap_small.
  pose proof (Z.mul_div_le (u64 (v + n - 1)) n Hn).
  pose proof (Z.div_pos (u64 (v + n - 1)) n ltac:(lia) Hn).
  nia.
Qed.

(** A rounded address is zero (the addition wrapped) or lies less than a
    page above the address. *)
Lemma round_up_near (v n : Z) :
  0 < n -> 0 <= v < 2 ^ 64 ->
  round_up v n = 0 \/ v <= round_up v n < v + n.
Proof.
  intros Hn Hv. rewrite round_up_quot by exact Hn.
  unfold u64, wrap.
  destruct (Z_lt_ge_dec (v + n - 1) (2 ^ 64)) as [Hlt | Hge].
  - right. rewrite Z.mod_small by lia.
    pose proof (Z.mul_div_le (v + n - 1) n Hn).
    pose proof (Z.mul_succ_div_gt (v + n - 1) n Hn). nia.
  - left.
    assert (Hsmall : 0 <= (v + n - 1) mod 2 ^ 64 < n).
    { pose proof (Z.mod_pos_bound (v + n - 1) (2 ^ 64) ltac:(lia)).
      destruct (Z_lt_ge_dec n (2 ^ 64)).
      - assert ((v + n - 1) mod 2 ^ 64 = v + n - 1 - 2 ^ 64).
        { symmetry. apply Z.mod_unique with (q := 1); lia. }
        lia.
      - lia. }
    rewrite Z.div_small by exact Hsmall. reflexivity.
Qed.

(** The two forms of "the request fits": a rounded request below the rounded
    break is below the break itself. *)
Lemma round_up_below (a h n : Z) :
  0 < n -> 0 <= h < 2 ^ 64 ->
  round_up a n < round_up h n -> round_up a n <= h.
Proof.
  intros Hn Hh Hlt.
  destruct (round_up_near h n Hn Hh) as [H0 | Hnear].
  - rewrite H0 in Hlt. rewrite round_up_quot in Hlt by exact Hn.
    pose proof (u64_range (a + n - 1)).
    pose proof (Z.div_pos (u64 (a + n - 1)) n ltac:(lia) Hn). nia.
  - rewrite (round_up_quot a) in * by exact Hn.
    rewrite (round_up_quot h) in * by exact Hn.
    set (qa := u64 (a + n - 1) / n) in *.
    set (qh := u64 (h + n - 1) / n) in *.
    assert (qa < qh) by nia. nia.
Qed.

(** The implicit conversion followed by the assignment gives a register its
    own pattern back. *)
Lemma request_roundtrip (T : target) (u : Z) :
  0 <= u < 2 ^ bits (xlen T) ->
  wrap (bits (xlen T)) (to_uintptr (reg_val T u)) = u.
Proof.
  unfold reg_val, to_uintptr, u64, signed, wrap.
  destruct (xlen T), (reg_signed T); cbn [bits]; intros Hu;
    split_ifs; pow2_numerals; Z.div_mod_to_equations; lia.
Qed.

Section Brk.
Variable T : target.
Variable H : host.

Lemma set_a0_a0 (p : processor) (v : Z) :
  ireg (set_a0 T p v) riscv_ireg_a0 = wrap (bits (xlen T)) v.
Proof. reflexivity. Qed.

Lemma set_a0_other (p : processor) (v r : Z) :
  r <> riscv_ireg_a0 -> ireg (set_a0 T p v) r = ireg p r.
Proof.
  intros Hr. unfold set_a0, set_ireg. cbn [ireg].
  destruct (Z.eqb_spec r riscv_ireg_a0); [contradiction | reflexivity].
Qed.

(** The three ways [sys_brk] ends. *)
Lemma sys_brk_fits (p : processor) (w : world) :
  brk_grows T p = false ->
  sys_brk T H p w = Normal (set_a0 T p (brk_request T p)) w.
Proof.
  unfold brk_grows, sys_brk, brk_request. intros Hg.
  apply negb_false_iff in Hg. rewrite Hg. reflexivity.
Qed.

Lemma sys_brk_failed (p : processor) (w : world) (e : Z) :
  brk_grows T p = true -> brk_mmap_answer T H p w = inr e ->
  sys_brk T H p w =
    Normal (set_a0 T p (- ENOMEM))
      (emit (EvDebug "brk: error: mmap: %s" [AStrerror e])
         (with_errno (emit (brk_mmap_event T p) w) e)).
Proof.
  unfold brk_grows, sys_brk, brk_mmap_answer, brk_mmap_event, brk_request.
  intros Hg Hans. apply negb_true_iff in Hg. rewrite Hg.
  unfold bind, mmap. cbv zeta in Hans. rewrite Hans. reflexivity.
Qed.

Lemma sys_brk_grown (p : processor) (w : world) (m' : memory) :
  brk_grows T p = true -> brk_mmap_answer T H p w = inl m' ->
  exists w',
    sys_brk T H p w =
      Normal (set_a0 T
                (set_heap_end
                   (push_segment p
                      (round_up (heap_end p) (page_size T),
                       u64 (round_up (brk_request T p) (page_size T)
                            - round_up (heap_end p) (page_size T))))
                   (round_up (brk_request T p) (page_size T)))
                (brk_request T p)) w'
    /\ mem w' = m'
    /\ (trace w' = trace w ++ [brk_mmap_event T p]
        \/ exists d, trace w' = trace w ++ [brk_mmap_event T p; d]
                     /\ forall a l, d <> EvMunmap a l).
Proof.
  unfold brk_grows, sys_brk, brk_mmap_answer, brk_mmap_event, brk_request.
  intros Hg Hans. apply negb_true_iff in Hg. rewrite Hg.
  unfold bind, mmap. cbv zeta in Hans. rewrite Hans.
  cbn [flags set_heap_end push_segment].
  destruct (negb (Z.land (flags p) (processor_flag_emulator_debug T) =? 0)).
  - eexists. split; [reflexivity |]. split; [reflexivity |].
    right. eexists. split.
    + cbn [trace emit with_mem debug]. rewrite <- app_assoc. reflexivity.
    + intros a l. discriminate.
  - eexists. split; [reflexivity |]. split; [reflexivity |].
    left. reflexivity.
Qed.

End Brk.

(** C1: when the requested address rounded up to the page size is not larger
    than the current heap_end rounded up to the page size, sys_brk returns
    normally with the requested address in a0 (for a register that holds an
    XLEN-bit pattern: a0 keeps its value), heap_end and the list of mapped
    segments as they were, and the world untouched: no host call is made, so
    nothing is mapped. *)
Theorem C1_brk_request_that_fits (T : target) (H : host) (p : processor) (w : world)
  (Hpage : 0 < page_size T)
  (Hheap : 0 <= heap_end p < 2 ^ 64)
  (Hfits : round_up (brk_request T p) (page_size T)
           <= round_up (heap_end p) (page_size T)) :
  exists p',
    sys_brk T H p w = Normal p' w
    /\ ireg p' riscv_ireg_a0 = wrap (bits (xlen T)) (brk_request T p)
    /\ (0 <= a0 p < 2 ^ bits (xlen T) -> ireg p' riscv_ireg_a0 = a0 p)
    /\ heap_end p' = heap_end p
    /\ mapped_segments p' = mapped_segments p
    /\ (forall r, r <> riscv_ireg_a0 -> ireg p' r = ireg p r).
Proof.
  exists (set_a0 T p (brk_request T p)).
  assert (Hg : brk_grows T p = false).
  { unfold brk_grows. apply negb_false_iff, orb_true_iff.
    destruct (Z.eq_dec (round_up (brk_request T p) (page_size T))
                (round_up (heap_end p) (page_size T))) as [E | N].
    - right. apply Z.eqb_eq. exact E.
    - left. apply Z.leb_le. apply round_up_below with (n := page_size T); lia. }
  split; [apply sys_brk_fits; exact Hg |].
  split; [apply set_a0_a0 |].
  split.
  { intros Hreg. rewrite set_a0_a0. unfold brk_request.
    apply request_roundtrip. exact Hreg. }
  split; [reflexivity |]. split; [reflexivity |].
  intros r Hr. apply set_a0_other. exact Hr.
Qed.

(** C2: when sys_brk has to grow the heap and the mapping fails, it returns
    normally with -ENOMEM in a0 and the processor otherwise unchanged:
    heap_end keeps its value, nothing is appended to the mapped segments, no
    other register changes; guest memory is as before, and the host saw the
    failed mmap call and the diagnostic only. *)
Theorem C2_brk_mapping_failure (T : target) (H : host) (p : processor) (w : world)
  (e : Z)
  (Hgrows : brk_grows T p = true)
  (Hfails : brk_mmap_answer T H p w = inr e) :
  exists p' w',
    sys_brk T H p w = Normal p' w'
    /\ ireg p' riscv_ireg_a0 = wrap (bits (xlen T)) (- ENOMEM)
    /\ p' = set_ireg (xlen T) p riscv_ireg_a0 (- ENOMEM)
    /\ heap_end p' = heap_end p
    /\ mapped_segments p' = mapped_segments p
    /\ (forall r, r <> riscv_ireg_a0 -> ireg p' r = ireg p r)
    /\ mem w' = mem w
    /\ trace w' = trace w ++ [brk_mmap_event T p;
                              EvDebug "brk: error: mmap: %s" [AStrerror e]].
Proof.
  eexists. eexists.
  split; [apply sys_brk_failed; eassumption |].
  split; [apply set_a0_a0 |].
  split; [reflexivity |]. split; [reflexivity |]. split; [reflexivity |].
  split; [intros r Hr; apply set_a0_other; exact Hr |].
  split; [reflexivity |].
  cbn [trace emit with_errno]. rewrite <- app_assoc. reflexivity.
Qed.

(** C9: every call of sys_brk returns normally with heap_end at least what it
    was; heap_end either keeps its value or becomes the requested address
    rounded up to the page size; the list of mapped segments only grows at
    its end, and no munmap is among the host calls the proxy makes. *)
Theorem C9_heap_end_never_decreases (T : target) (H : host) (p : processor) (w : world) :
  exists p' w' segs evs,
    sys_brk T H p w = Normal p' w'
    /\ heap_end p <= heap_end p'
    /\ (heap_end p' = heap_end p
        \/ heap_end p' = round_up (brk_request T p) (page_size T))
    /\ mapped_segments p' = mapped_segments p ++ segs
    /\ trace w' = trace w ++ evs
    /\ (forall a l, ~ In (EvMunmap a l) evs).
Proof.
  destruct (brk_grows T p) eqn:Hg.
  - destruct (brk_mmap_answer T H p w) as [m' | e] eqn:Hans.
    + destruct (sys_brk_grown T H p w m' Hg Hans) as (w' & Hrun & _ & Htrace).
      assert (Hlt : heap_end p < round_up (brk_request T p) (page_size T)).
      { unfold brk_grows in Hg. apply negb_true_iff, orb_false_iff in Hg.
        destruct Hg as [Hle _]. apply Z.leb_gt in Hle. exact Hle. }
      destruct Htrace as [Ht | (d & Ht & Hd)].
      * eexists. exists w'. eexists. exists [brk_mmap_event T p].
        split; [exact Hrun |]. cbn [heap_end set_a0 set_ireg set_heap_end
                                    mapped_segments push_segment].
        split; [lia |]. split; [right; reflexivity |].
        split; [reflexivity |]. split; [exact Ht |].
        intros a l [E | []]. discriminate E.
      * eexists. exists w'. eexists. exists [brk_mmap_event T p; d].
        split; [exact Hrun |]. cbn [heap_end set_a0 set_ireg set_heap_end
                                    mapped_segments push_segment].
        split; [lia |]. split; [right; reflexivity |].
        split; [reflexivity |]. split; [exact Ht |].
        intros a l [E | [E | []]]; [discriminate E | exact (Hd a l E)].
    + eexists. eexists. exists []. eexists.
      split; [apply sys_brk_failed; eassumption |].
      cbn [heap_end set_a0 set_ireg mapped_segments].
      split; [lia |]. split; [left; reflexivity |].
      split; [symmetry; apply app_nil_r |].
      split; [cbn [trace emit with_errno]; rewrite <- app_assoc; reflexivity |].
      intros a l [E | [E | []]]; discriminate E.
  - exists (set_a0 T p (brk_request T p)), w, [], [].
    split; [apply sys_brk_fits; exact Hg |].
    cbn [heap_end set_a0 set_ireg mapped_segments].
    split; [lia |]. split; [left; reflexivity |].
    split; [symmetry; apply app_nil_r |].
    split; [symmetry; apply app_nil_r |].
    intros a l [].
Qed.

End BrkFacts.

Module BrkWitnesses.
Import Word Mem Codec Machine HostCalls Abi Observe Samples BrkFacts.

Lemma C1_brk_request_that_fits_witness :
  exists p',
    sys_brk rv64_linux refusing_host (proc_with_regs 0x11000) empty_world
      = Normal p' empty_world
    /\ ireg p' riscv_ireg_a0 = 0x11000
    /\ heap_end p' = 0x11234.
Proof.
  destruct (C1_brk_request_that_fits rv64_linux refusing_host
              (proc_with_regs 0x11000) empty_world)
    as (p' & Hrun & Ha0 & _ & Hheap & _).
  - reflexivity.
  - cbn [heap_end proc_with_regs]. lia.
  - vm_compute. intros E; discriminate E.
  - exists p'. split; [exact Hrun |]. split; [exact Ha0 | exact Hheap].
Defined.

Lemma C2_brk_mapping_failure_witness :
  exists p' w',
    sys_brk rv64_linux refusing_host (proc_with_regs 0x20000) empty_world
      = Normal p' w'
    /\ ireg p' riscv_ireg_a0 = 2 ^ 64 - 12
    /\ heap_end p' = 0x11234
    /\ mapped_segments p' = [(0x10000, 0x1234)].
Proof.
  destruct (C2_brk_mapping_failure rv64_linux refusing_host
              (proc_with_regs 0x20000) empty_world ENOMEM)
    as (p' & w' & Hrun & Ha0 & _ & Hheap & Hsegs & _).
  - reflexivity.
  - reflexivity.
  - exists p', w'. split; [exact Hrun |]. split; [exact Ha0 |].
    split; [exact Hheap | exact Hsegs].
Defined.

End BrkWitnesses.

(* ------------------------------------------------------------------ *)
(** * Properties of the write and fstat proxies *)

Module ProxyFacts.
Import Word Mem Codec Machine HostCalls Abi Observe WordFacts MemFacts BrkFacts.

Lemma to_int_range (v : Z) : - 2 ^ 31 <= to_int v < 2 ^ 31.
Proof.
  unfold to_int, signed, wrap.
  pose proof (Z.mod_pos_bound v (2 ^ 32) ltac:(lia)).
  destruct (v mod 2 ^ 32 <? 2 ^ (32 - 1)) eqn:E;
    [apply Z.ltb_lt in E | apply Z.ltb_ge in E];
    change (2 ^ (32 - 1)) with (2 ^ 31) in E; lia.
Qed.

(** A nonzero [int] stays nonzero when it is assigned to a register and
    read back through the register's conversion. *)
Lemma reg_of_int_zero (T : target) (r : Z) :
  - 2 ^ 31 <= r < 2 ^ 31 ->
  (reg_val T (wrap (bits (xlen T)) r) =? 0) = (r =? 0).
Proof.
  intros Hr. unfold reg_val, signed, wrap.
  destruct (Z.eqb_spec r 0) as [-> | Hnz].
  - destruct (xlen T), (reg_signed T); reflexivity.
  - apply Z.eqb_neq.
    destruct (xlen T), (reg_signed T); cbn [bits];
      split_ifs; pow2_numerals; Z.div_mod_to_equations; lia.
Qed.

Section Proxies.
Variable T : target.
Variable H : host.

Lemma sys_write_run (p : processor) (w : world) :
  sys_write T H p w =
    Normal (set_a0 T p (fst (write_answer T H p w)))
      (with_errno (emit (write_event T p) w) (snd (write_answer T H p w))).
Proof.
  unfold sys_write, write_answer, write_event, bind, write.
  destruct (host_write H _ _ _ _) as [r e]. reflexivity.
Qed.

(** [sys_fstat] in one equation: the answer of the host decides whether the
    conversion runs. *)
Lemma sys_fstat_run (p : processor) (w : world) :
  sys_fstat T H p w =
    let r := fst (fst (fstat_answer T H p w)) in
    let e := snd (fst (fstat_answer T H p w)) in
    let s := snd (fstat_answer T H p w) in
    let w1 := with_errno (emit (fstat_event T p) w) e in
    if r =? 0
    then Normal (set_a0 T p r)
           (with_mem w1 (cvt_unknown_stat (xlen T) (to_uintptr (a1 p)) s (mem w)))
    else Normal (set_a0 T p r) w1.
Proof.
  unfold sys_fstat, fstat_answer, fstat_event, bind, fstat.
  destruct (host_fstat H _ _) as [[r e] s]. cbn [fst snd].
  change (a0 (set_a0 T p (to_int r))) with (wrap (bits (xlen T)) (to_int r)).
  rewrite reg_of_int_zero by apply to_int_range.
  destruct (to_int r =? 0); reflexivity.
Qed.

End Proxies.

(** C3 (as amended): a proxied write or fstat puts the value the host call
    returned into a0, truncated to XLEN bits, whether the call failed or not;
    errno is left with the host and is not looked at.  A failed call returns
    -1, so a0 holds the all-ones pattern of -1. *)
Theorem C3_proxy_passes_host_return_value (T : target) (H : host)
    (p : processor) (w : world) :
  (exists p' w',
      sys_write T H p w = Normal p' w'
      /\ ireg p' riscv_ireg_a0 = wrap (bits (xlen T)) (fst (write_answer T H p w))
      /\ errno w' = snd (write_answer T H p w)
      /\ (fst (write_answer T H p w) = -1 ->
          ireg p' riscv_ireg_a0 = 2 ^ bits (xlen T) - 1))
  /\ (exists p' w',
      sys_fstat T H p w = Normal p' w'
      /\ ireg p' riscv_ireg_a0
         = wrap (bits (xlen T)) (fst (fst (fstat_answer T H p w)))
      /\ errno w' = snd (fst (fstat_answer T H p w))
      /\ (fst (fst (fstat_answer T H p w)) = -1 ->
          ireg p' riscv_ireg_a0 = 2 ^ bits (xlen T) - 1)).
Proof.
  assert (Hm1 : wrap (bits (xlen T)) (-1) = 2 ^ bits (xlen T) - 1).
  { destruct (xlen T); reflexivity. }
  split.
  - eexists. eexists. split; [apply sys_write_run |].
    split; [apply set_a0_a0 |]. split; [reflexivity |].
    intros E. rewrite set_a0_a0, E. exact Hm1.
  - rewrite sys_fstat_run. cbv zeta.
    destruct (fst (fst (fstat_answer T H p w)) =? 0);
      (eexists; eexists; split; [reflexivity |];
       split; [apply set_a0_a0 |]; split; [reflexivity |];
       intros E; rewrite set_a0_a0, E; exact Hm1).
Qed.

(** C10: when the host fstat returns nonzero, sys_fstat returns normally
    with guest memory exactly as it was; the processor differs from the one
    before the call in register a0 only, which holds the host's return
    value. *)
Theorem C10_failed_fstat_leaves_memory (T : target) (H : host)
    (p : processor) (w : world)
    (Hfail : fst (fst (fstat_answer T H p w)) <> 0) :
  exists p' w',
    sys_fstat T H p w = Normal p' w'
    /\ mem w' = mem w
    /\ p' = set_ireg (xlen T) p riscv_ireg_a0 (fst (fst (fstat_answer T H p w)))
    /\ (forall r, r <> riscv_ireg_a0 -> ireg p' r = ireg p r)
    /\ pc p' = pc p
    /\ heap_end p' = heap_end p
    /\ mapped_segments p' = mapped_segments p.
Proof.
  rewrite sys_fstat_run. cbv zeta.
  apply Z.eqb_neq in Hfail. rewrite Hfail.
  eexists. eexists. split; [reflexivity |].
  split; [reflexivity |]. split; [reflexivity |].
  split; [intros r Hr; apply set_a0_other; exact Hr |].
  repeat split.
Qed.

End ProxyFacts.

Module ProxyWitnesses.
Import Word Mem Codec Machine HostCalls Abi Observe Samples ProxyFacts.

(** C3 (as stated) fails: on a host whose write fails with EBADF, and whose
    fstat fails with EBADF, a0 ends as the pattern of -1, which is not the
    pattern of -EBADF. *)
Lemma C3_failed_call_returns_minus_one :
  (exists p' w',
      sys_write rv64_linux refusing_host (proc_with_regs 1) empty_world
        = Normal p' w'
      /\ fst (write_answer rv64_linux refusing_host (proc_with_regs 1) empty_world)
         = -1
      /\ errno w' = EBADF
      /\ ireg p' riscv_ireg_a0 = wrap 64 (-1)
      /\ ireg p' riscv_ireg_a0 <> wrap 64 (- errno w'))
  /\ (exists p' w',
      sys_fstat rv64_linux refusing_host (proc_with_regs 1) empty_world
        = Normal p' w'
      /\ errno w' = EBADF
      /\ ireg p' riscv_ireg_a0 = wrap 64 (-1)
      /\ ireg p' riscv_ireg_a0 <> wrap 64 (- errno w')).
Proof.
  split.
  - eexists. eexists. split; [reflexivity |].
    split; [reflexivity |]. split; [reflexivity |]. split; [reflexivity |].
    vm_compute. intros E. discriminate E.
  - eexists. eexists. split; [reflexivity |].
    split; [reflexivity |]. split; [reflexivity |].
    vm_compute. intros E. discriminate E.
Qed.

Lemma C10_failed_fstat_leaves_memory_witness :
  exists p' w',
    sys_fstat rv64_linux refusing_host (proc_with_regs 1) empty_world
      = Normal p' w'
    /\ mem w' = mem empty_world
    /\ heap_end p' = 0x11234.
Proof.
  destruct (C10_failed_fstat_leaves_memory rv64_linux refusing_host
              (proc_with_regs 1) empty_world)
    as (p' & w' & Hrun & Hmem & _ & _ & _ & Hheap & _).
  - vm_compute. intros E. discriminate E.
  - exists p', w'. split; [exact Hrun |]. split; [exact Hmem | exact Hheap].
Defined.

End ProxyWitnesses.

(* ------------------------------------------------------------------ *)
(** * Properties of the stat conversion *)

Module StatFacts.
Import Word Mem Codec Machine HostCalls Abi Observe WordFacts MemFacts
  BrkFacts ProxyFacts.

(** The C layout leaves no gap: it is the documented one. *)
Lemma c_layout_documented (x : xlen_t) : c_layout x = packed 0 (documented_stat x).
Proof. destruct x; reflexivity. Qed.

Lemma widthof_cases (x : xlen_t) (f : field) : widthof x f = 4 \/ widthof x f = 8.
Proof. destruct x, f; vm_compute; auto. Qed.

Lemma members_disjoint (x : xlen_t) (f g : field) :
  f <> g ->
  offsetof x f + widthof x f <= offsetof x g
  \/ offsetof x g + widthof x g <= offsetof x f.
Proof.
  intros Hfg.
  destruct x, f, g; try (exfalso; apply Hfg; reflexivity);
    vm_compute; ((left; intros E; discriminate E) || (right; intros E; discriminate E)).
Qed.

Lemma raw_assign_same (x : xlen_t) (m : memory) (a : Z) (f : field) (v : Z) :
  raw_member x (assign x a f v m) a f = wrap (8 * widthof x f) v.
Proof.
  unfold raw_member, assign, wrap. rewrite load_store_same.
  destruct (widthof_cases x f) as [-> | ->]; reflexivity.
Qed.

Lemma raw_assign_other (x : xlen_t) (m : memory) (a : Z) (f g : field) (v : Z) :
  f <> g -> raw_member x (assign x a g v m) a f = raw_member x m a f.
Proof.
  intros Hfg. unfold raw_member, assign. apply load_store_disjoint.
  destruct (widthof_cases x f) as [Ef | Ef], (widthof_cases x g) as [Eg | Eg];
    pose proof (members_disjoint x f g Hfg); rewrite Ef, Eg in *; lia.
Qed.

Lemma cvt_unknown_stat_assign_all (x : xlen_t) (a : Z) (hs : host_stat) (m : memory) :
  cvt_unknown_stat x a hs m = assign_all x a (assigned hs) m.
Proof. reflexivity. Qed.

Lemma raw_assign_all_other (x : xlen_t) (a : Z) (f : field) (l : list (field * Z)) :
  forall m, ~ In f (map fst l) ->
            raw_member x (assign_all x a l m) a f = raw_member x m a f.
Proof.
  induction l as [| [g v] l IH]; intros m Hnot; [reflexivity |].
  cbn [assign_all fold_left fst snd]. fold (assign_all x a l (assign x a g v m)).
  rewrite IH by (intros Hin; apply Hnot; right; exact Hin).
  apply raw_assign_other. intros ->. apply Hnot. left. reflexivity.
Qed.

Lemma raw_assign_all_in (x : xlen_t) (a : Z) (f : field) (v : Z)
    (l : list (field * Z)) :
  forall m, NoDup (map fst l) -> In (f, v) l ->
            raw_member x (assign_all x a l m) a f = wrap (8 * widthof x f) v.
Proof.
  induction l as [| [g u] l IH]; intros m Hnd Hin; [destruct Hin |].
  cbn [assign_all fold_left fst snd]. fold (assign_all x a l (assign x a g u m)).
  cbn [map fst] in Hnd. inversion Hnd as [| ? ? Hfresh Hnd']; subst.
  destruct Hin as [E | Hin].
  - inversion E; subst. rewrite raw_assign_all_other by exact Hfresh.
    apply raw_assign_same.
  - apply IH; assumption.
Qed.

Lemma assigned_nodup (hs : host_stat) : NoDup (map fst (assigned hs)).
Proof.
  cbn [assigned map fst].
  repeat (constructor; [cbn [In]; intros Hin;
                        repeat (destruct Hin as [E | Hin]; [discriminate E |]);
                        exact Hin |]).
  constructor.
Qed.

Lemma signed_wrap (w v : Z) : 0 <= w -> signed w (wrap w v) = signed w v.
Proof. intros Hw. unfold signed. rewrite wrap_idem by exact Hw. reflexivity. Qed.

Lemma read_member_raw (x : xlen_t) (m : memory) (a : Z) (f : field) (v : Z) :
  raw_member x m a f = wrap (8 * widthof x f) v ->
  read_member x m a f = fit x (typeof x f) v.
Proof.
  unfold read_member, fit, raw_member, widthof. intros ->.
  destruct (is_signed (typeof x f)); [| reflexivity].
  apply signed_wrap.
  destruct (widthof_cases x f) as [E | E]; unfold widthof in E; rewrite E; lia.
Qed.

(** A value that fits its member is kept as it is. *)
Lemma fit_exact (x : xlen_t) (t : ctype) (v : Z) :
  (if is_signed t
   then - 2 ^ (8 * sizeof x t - 1) <= v < 2 ^ (8 * sizeof x t - 1)
   else 0 <= v < 2 ^ (8 * sizeof x t)) ->
  fit x t v = v.
Proof.
  unfold fit, signed, wrap.
  destruct x, t; cbn [is_signed sizeof bits];
    change (8 * (32 / 8)) with 32; change (8 * (64 / 8)) with 64;
    change (8 * 4) with 32;
    change (32 - 1) with 31; change (64 - 1) with 63;
    intros Hv; split_ifs; pow2_numerals;
    Z.div_mod_to_equations; lia.
Qed.

(** C8 (as amended): after a successful proxied fstat the structure at the
    guest address in a1 has the documented members in the documented order,
    each of the documented size and directly after the one before (mode at
    byte 8, size at 32, mtime at 56 for XLEN=32; 16, 48, 88 for XLEN=64);
    every member the conversion assigns holds the host value reduced to the
    member's width (two's complement for the signed members), so size, mode
    and mtime hold the host's values whenever these fit the member; the four
    padding members keep what guest memory held. *)
Theorem C8_fstat_fills_unknown_stat (T : target) (H : host)
    (p : processor) (w : world)
    (Hok : fst (fst (fstat_answer T H p w)) = 0) :
  exists p' w',
    sys_fstat T H p w = Normal p' w'
    /\ ireg p' riscv_ireg_a0 = 0
    /\ c_layout (xlen T) = packed 0 (documented_stat (xlen T))
    /\ (offsetof (xlen T) f_mode, offsetof (xlen T) f_size, offsetof (xlen T) f_mtime)
       = match xlen T with RV32 => (8, 32, 56) | RV64 => (16, 48, 88) end
    /\ (forall f v, In (f, v) (assigned (snd (fstat_answer T H p w))) ->
          read_member (xlen T) (mem w') (to_uintptr (a1 p)) f
          = fit (xlen T) (typeof (xlen T) f) v)
    /\ read_member (xlen T) (mem w') (to_uintptr (a1 p)) f_size
       = fit (xlen T) long_t (st_size (snd (fstat_answer T H p w)))
    /\ read_member (xlen T) (mem w') (to_uintptr (a1 p)) f_mode
       = fit (xlen T) uint_t (st_mode (snd (fstat_answer T H p w)))
    /\ read_member (xlen T) (mem w') (to_uintptr (a1 p)) f_mtime
       = fit (xlen T) long_t (st_mtim_sec (snd (fstat_answer T H p w)))
    /\ (- 2 ^ (bits (xlen T) - 1) <= st_size (snd (fstat_answer T H p w))
          < 2 ^ (bits (xlen T) - 1) ->
        read_member (xlen T) (mem w') (to_uintptr (a1 p)) f_size
        = st_size (snd (fstat_answer T H p w)))
    /\ (0 <= st_mode (snd (fstat_answer T H p w)) < 2 ^ 32 ->
        read_member (xlen T) (mem w') (to_uintptr (a1 p)) f_mode
        = st_mode (snd (fstat_answer T H p w)))
    /\ (- 2 ^ (bits (xlen T) - 1) <= st_mtim_sec (snd (fstat_answer T H p w))
          < 2 ^ (bits (xlen T) - 1) ->
        read_member (xlen T) (mem w') (to_uintptr (a1 p)) f_mtime
        = st_mtim_sec (snd (fstat_answer T H p w)))
    /\ (forall f, In f padding ->
          read_member (xlen T) (mem w') (to_uintptr (a1 p)) f
          = read_member (xlen T) (mem w) (to_uintptr (a1 p)) f).
Proof.
  rewrite sys_fstat_run. cbv zeta. rewrite Hok. cbn [Z.eqb].
  set (s := snd (fstat_answer T H p w)).
  set (a := to_uintptr (a1 p)).
  set (x := xlen T).
  assert (Hall : forall f v, In (f, v) (assigned s) ->
            read_member x (cvt_unknown_stat x a s (mem w)) a f = fit x (typeof x f) v).
  { intros f v Hin. apply read_member_raw.
    rewrite cvt_unknown_stat_assign_all.
    apply raw_assign_all_in; [apply assigned_nodup | exact Hin]. }
  assert (Hsize := Hall f_size (st_size s) ltac:(cbn; tauto)).
  assert (Hmode := Hall f_mode (st_mode s) ltac:(cbn; tauto)).
  assert (Hmtime := Hall f_mtime (st_mtim_sec s) ltac:(cbn; tauto)).
  assert (Ety : typeof x f_size = long_t /\ typeof x f_mode = uint_t
                /\ typeof x f_mtime = long_t).
  { destruct x; repeat split. }
  destruct Ety as (Ety1 & Ety2 & Ety3). rewrite Ety1 in Hsize.
  rewrite Ety2 in Hmode. rewrite Ety3 in Hmtime.
  eexists. eexists. split; [reflexivity |].
  cbn [mem with_mem].
  split; [destruct x; reflexivity |].
  split; [apply c_layout_documented |].
  split; [destruct x; reflexivity |].
  split; [exact Hall |].
  split; [exact Hsize |]. split; [exact Hmode |]. split; [exact Hmtime |].
  split.
  { intros Hfit. rewrite Hsize. apply fit_exact. cbn [is_signed].
    destruct x; exact Hfit. }
  split.
  { intros Hfit. rewrite Hmode. apply fit_exact. cbn [is_signed].
    destruct x; exact Hfit. }
  split.
  { intros Hfit. rewrite Hmtime. apply fit_exact. cbn [is_signed].
    destruct x; exact Hfit. }
  intros f Hpad. unfold read_member.
  change (load_le ?m (a + offsetof x f) (Z.to_nat (widthof x f)))
    with (raw_member x m a f).
  rewrite cvt_unknown_stat_assign_all.
  rewrite raw_assign_all_other; [reflexivity |].
  cbn [assigned map fst padding In] in *.
  intros Hin.
  repeat (destruct Hpad as [<- | Hpad];
          [repeat (destruct Hin as [E | Hin]; [discriminate E |]); exact Hin |]).
  exact Hpad.
Qed.

End StatFacts.

Module StatWitnesses.
Import Word Mem Codec Machine HostCalls Abi Observe Samples StatFacts.

(** C8 (as stated) fails for XLEN=32: the size member is 32 bits wide, and
    for a file of 4 GiB it holds 0, not the host's st_size. *)
Lemma C8_rv32_size_member_truncates :
  exists p' w',
    sys_fstat rv32_linux (willing_host big_file_stat) (proc_with_regs 0x20000)
      empty_world = Normal p' w'
    /\ ireg p' riscv_ireg_a0 = 0
    /\ st_size big_file_stat = 4294967296
    /\ read_member RV32 (mem w') 0x20000 f_size = 0
    /\ read_member RV32 (mem w') 0x20000 f_size <> st_size big_file_stat.
Proof.
  rewrite ProxyFacts.sys_fstat_run.
  eexists. eexists. split; [lazy beta iota zeta delta; reflexivity |].
  split; [reflexivity |]. split; [reflexivity |].
  split; [vm_compute; reflexivity |].
  vm_compute. intros E. discriminate E.
Qed.

Lemma C8_fstat_fills_unknown_stat_witness :
  exists p' w',
    sys_fstat rv64_linux (willing_host small_file_stat) (proc_with_regs 0x20000)
      empty_world = Normal p' w'
    /\ read_member RV64 (mem w') 0x20000 f_size = 1234
    /\ read_member RV64 (mem w') 0x20000 f_mode = 33188
    /\ read_member RV64 (mem w') 0x20000 f_mtime = 1500000000.
Proof.
  destruct (C8_fstat_fills_unknown_stat rv64_linux (willing_host small_file_stat)
              (proc_with_regs 0x20000) empty_world)
    as (p' & w' & Hrun & _ & _ & _ & _ & _ & _ & _ & Hsize & Hmode & Hmtime & _).
  - reflexivity.
  - exists p', w'. split; [exact Hrun |].
    split; [apply Hsize; vm_compute; split; [intros E; discriminate E | reflexivity] |].
    split; [apply Hmode; vm_compute; split; [intros E; discriminate E | reflexivity] |].
    apply Hmtime; vm_compute; split; [intros E; discriminate E | reflexivity].
Defined.

End StatWitnesses.

(* ------------------------------------------------------------------ *)
(** * Properties of the stepper and its decode cache *)

Module StepperFacts.
Import Word Mem Codec Machine HostCalls Abi Emulator Observe.
Local Open Scope emu_scope.

Section Stepper.
Variable T : target.
Variable U : unit_ops.
Variable H : host.

Lemma step_body_phases (n : Z) (st : runner) (w : world) :
  step_body T U H n st w =
    attach (snd (cache_lookup U n (inst_cache st) (dec st) (fetched_inst st w)))
      (executed_record U n st w)
      (exec_phase T U H (proc st) (executed_record U n st w) (fetched_length st w) w).
Proof.
  unfold step_body, executed_record, fetched_inst, fetched_length, exec_phase.
  destruct (inst_fetch (mem w) (pc (proc st))) as [inst len]. cbn [fst snd].
  destruct (cache_lookup U n (inst_cache st) (dec st) inst) as [d c]. cbn [fst snd].
  unfold bind.
  destruct (log_registers (proc st)), (log_instructions (proc st));
    cbn [print_int_regeisters print_disassembly ret];
    match goal with
    | |- context [u_exec_inst U d len (proc st) ?m] =>
        destruct (u_exec_inst U d len (proc st) m) as [[handled p1] m1]
    end;
    (destruct handled; [reflexivity |]);
    (destruct (op d =? riscv_op_ecall T); [| reflexivity]);
    match goal with
    | |- context [proxy_syscall T H ?q ?w2] => destruct (proxy_syscall T H q w2)
    end; reflexivity.
Qed.

(** The stale-slot behaviour: a slot whose stored word equals the fetched
    word is used as it is, whatever record it holds. *)
Lemma cache_lookup_hit (n : Z) (c : cache) (d0 : decode) (inst : Z) :
  ent_inst (c (inst mod n)) = inst ->
  cache_lookup U n c d0 inst = (ent_dec (c (inst mod n)), c).
Proof.
  intros E. unfold cache_lookup. rewrite E, Z.eqb_refl. reflexivity.
Qed.

Lemma cache_lookup_coherent (n : Z) (c : cache) (d0 : decode) (inst : Z) :
  overwrites_record U -> 0 < n -> coherent U n c ->
  fst (cache_lookup U n c d0 inst) = u_decode_inst U d0 inst
  /\ coherent U n (snd (cache_lookup U n c d0 inst)).
Proof.
  intros Hpure Hn Hc. unfold cache_lookup.
  pose proof (Z.mod_pos_bound inst n Hn) as Hkey.
  destruct (Z.eqb_spec (ent_inst (c (inst mod n))) inst) as [E | N]; cbn [fst snd].
  - split; [| exact Hc].
    rewrite (Hc (inst mod n) Hkey) by (rewrite E; reflexivity).
    rewrite E. apply Hpure.
  - split; [reflexivity |].
    intros k Hk Hslot. unfold cache_set in *.
    destruct (Z.eqb_spec k (inst mod n)) as [-> | Hne].
    + cbn [ent_inst ent_dec]. apply Hpure.
    + apply Hc; assumption.
Qed.

(** On zero-filled memory the cache [start] constructs is coherent exactly
    when the all-zero word decodes to the default record: slot 0 is the only
    slot the stored word 0 can be fetched from. *)
Lemma zero_filled_cache_coherent (n : Z) (p : processor) :
  0 < n ->
  (coherent U n (inst_cache (fresh_runner p (fun _ => 0)))
   <-> decode_init = u_decode_inst U decode_init 0).
Proof.
  intros Hn. unfold coherent, fresh_runner. cbn [inst_cache ent_inst ent_dec].
  split.
  - intros Hc. apply (Hc 0); [lia | apply Z.mod_0_l; lia].
  - intros E k _ _. exact E.
Qed.

(** Reading [k + m] iterations as [k] iterations followed by [m]. *)
Lemma step_loop_add (n : Z) (k m : nat) : forall st w,
  step_loop T U H n (k + m) st w =
    match step_loop T U H n k st w with
    | Normal (None, st') w' => step_loop T U H n m st' w'
    | o => o
    end.
Proof.
  induction k as [| k IH]; intros st w; [reflexivity |].
  cbn [Nat.add step_loop]. unfold bind.
  destruct (step_body T U H n st w) as [[fl st1] w1 | code w1 | w1]; try reflexivity.
  cbn [fst snd]. destruct fl; [apply IH | reflexivity].
Qed.

Lemma step_loop_keeps_coherent (n : Z) (k : nat) :
  overwrites_record U -> 0 < n ->
  forall st0 w0 st w,
    coherent U n (inst_cache st0) ->
    step_loop T U H n k st0 w0 = Normal (None, st) w ->
    coherent U n (inst_cache st).
Proof.
  intros Hpure Hn. induction k as [| k IH]; intros st0 w0 st w Hc Hrun.
  - cbn in Hrun. inversion Hrun; subst. exact Hc.
  - cbn [step_loop] in Hrun. unfold bind in Hrun.
    rewrite step_body_phases in Hrun.
    destruct (cache_lookup_coherent n (inst_cache st0) (dec st0)
                (fetched_inst st0 w0) Hpure Hn Hc) as [_ Hc'].
    destruct (exec_phase T U H (proc st0) (executed_record U n st0 w0)
                (fetched_length st0 w0) w0) as [[fl p1] w1 | code w1 | w1];
      cbn [attach fst snd] in Hrun; try discriminate Hrun.
    destruct fl; [| discriminate Hrun].
    eapply IH; [| exact Hrun]. exact Hc'.
Qed.

(** Two runners on the same processor, each with a coherent cache of its
    own size, run alike. *)
Lemma step_loop_transparent (n1 n2 : Z) (fuel : nat) :
  overwrites_record U -> 0 < n1 -> 0 < n2 ->
  forall st1 st2 w,
    proc st1 = proc st2 ->
    coherent U n1 (inst_cache st1) -> coherent U n2 (inst_cache st2) ->
    observe (step_loop T U H n1 fuel st1 w) = observe (step_loop T U H n2 fuel st2 w).
Proof.
  intros Hpure Hn1 Hn2.
  induction fuel as [| fuel IH]; intros st1 st2 w Hp Hc1 Hc2.
  - cbn. rewrite Hp. reflexivity.
  - cbn [step_loop]. unfold bind. rewrite !step_body_phases.
    destruct (cache_lookup_coherent n1 (inst_cache st1) (dec st1)
                (fetched_inst st1 w) Hpure Hn1 Hc1) as [Hd1 Hc1'].
    destruct (cache_lookup_coherent n2 (inst_cache st2) (dec st2)
                (fetched_inst st2 w) Hpure Hn2 Hc2) as [Hd2 Hc2'].
    unfold executed_record in *. rewrite Hd1, Hd2.
    unfold fetched_inst, fetched_length in *. rewrite <- Hp in *.
    rewrite (Hpure (dec st2) (dec st1)).
    destruct (exec_phase T U H (proc st1) _ _ w) as [[fl p1] w1 | code w1 | w1];
      cbn [attach fst snd]; try reflexivity.
    destruct fl; [| reflexivity].
    apply IH; [reflexivity | exact Hc1' | exact Hc2'].
Qed.

Lemma step_reaches (n : Z) (k : nat) (count : Z) (st0 st : runner) (w0 w : world) :
  step T U H n k count st0 w0 = Normal (None, st) w ->
  0 < count
  /\ step_loop T U H n k (mk_runner (proc st0) (inst_cache st0) decode_init) w0
     = Normal (None, st) w.
Proof.
  unfold step. cbv zeta. destruct (Z.ltb_spec 0 count) as [Hc | Hc].
  - intros Hrun. split; [exact Hc | exact Hrun].
  - intros Hrun. discriminate Hrun.
Qed.

End Stepper.

(** What the hit test of step takes for granted.  Let the decoder's
    result depend on the instruction word only, and let every slot of the
    one-entry cache and of the 8191-entry cache that a fetch can hit hold,
    at the start, the decode of the word stored with it.  Then, for any
    guest program, the stepper with the one-entry cache and the stepper with
    the 8191-entry cache end alike after every number of loop iterations:
    same result of step, same processor, same memory, same host calls.  And
    in every iteration either run reaches, the record executed is the fresh
    decode of the fetched word, whether the lookup hit or missed.  A miss
    keeps the slots that way; nothing puts them that way to begin with. *)
Lemma decode_cache_transparent_when_coherent (T : target) (U : unit_ops) (H : host)
    (p : processor) (c1 c2 : cache)
    (Hdecoder : overwrites_record U)
    (Hsmall : coherent U 1 c1)
    (Hdefault : coherent U inst_cache_size c2) :
  (forall (fuel : nat) (count : Z) (d1 d2 : decode) (w : world),
      observe (step T U H 1 fuel count (mk_runner p c1 d1) w)
      = observe (step T U H inst_cache_size fuel count (mk_runner p c2 d2) w))
  /\ (forall (n : Z) (c : cache) (k : nat) (count : Z) (d0 : decode)
             (w0 : world) (st : runner) (w : world),
        (n = 1 /\ c = c1) \/ (n = inst_cache_size /\ c = c2) ->
        step T U H n k count (mk_runner p c d0) w0 = Normal (None, st) w ->
        executed_record U n st w = u_decode_inst U decode_init (fetched_inst st w)).
Proof.
  split.
  - intros fuel count d1 d2 w. unfold step. cbv zeta. cbn [proc inst_cache].
    destruct (0 <? count); [| reflexivity].
    apply step_loop_transparent; try assumption; reflexivity.
  - intros n c k count d0 w0 st w Hwhich Hrun.
    apply step_reaches in Hrun. destruct Hrun as [_ Hrun]. cbn [proc inst_cache] in Hrun.
    assert (Hn : 0 < n /\ coherent U n c).
    { destruct Hwhich as [[-> ->] | [-> ->]]; split; try assumption;
        unfold inst_cache_size; lia. }
    destruct Hn as [Hn Hc].
    pose proof (step_loop_keeps_coherent T U H n k Hdecoder Hn
                  (mk_runner p c decode_init) w0 st w Hc Hrun) as Hc'.
    unfold executed_record.
    destruct (cache_lookup_coherent U n (inst_cache st) (dec st)
                (fetched_inst st w) Hdecoder Hn Hc') as [Hd _].
    rewrite Hd. apply Hdecoder.
Qed.

End StepperFacts.

(* ------------------------------------------------------------------ *)
(** * Properties of instruction fetch *)

Module FetchFacts.
Import Word Mem Codec Machine Emulator Observe Observe2 WordFacts MemFacts CodecFacts.

Lemma inst_fetch_fetch_of (m : memory) (addr : Z) :
  inst_fetch m addr
  = fetch_of (load32 m addr) (load16 m (addr + 4)) (load32 m (addr + 4)).
Proof. reflexivity. Qed.

Lemma load32_range (m : memory) (a : Z) : 0 <= load32 m a < 2 ^ 32.
Proof. apply (load_le_range 4 m a). Qed.

Lemma load16_range (m : memory) (a : Z) : 0 <= load16 m a < 2 ^ 16.
Proof. apply (load_le_range 2 m a). Qed.

Lemma load32_halves (m : memory) (a : Z) :
  load32 m a = load16 m a + 65536 * load16 m (a + 2).
Proof.
  unfold load32, load16. cbn [load_le].
  replace (a + 1 + 1) with (a + 2) by lia.
  set (b0 := m a mod 256). set (b1 := m (a + 1) mod 256).
  set (b2 := m (a + 2) mod 256). set (b3 := m (a + 2 + 1) mod 256).
  lia.
Qed.

(** Words that agree in their low seven bits are classified alike. *)
Lemma inst_length_congr (v w : Z) : v mod 128 = w mod 128 -> inst_length v = inst_length w.
Proof.
  intros E. rewrite (inst_length_low7 v), (inst_length_low7 w), E. reflexivity.
Qed.

(** The high part of a long instruction sits above the low word. *)
Lemma lor_high (w h : Z) :
  0 <= w < 2 ^ 32 -> 0 <= h -> Z.lor w (Z.shiftl h 32) = w + h * 2 ^ 32.
Proof.
  intros Hw Hh. rewrite Z.shiftl_mul_pow2 by lia.
  assert (Hland : Z.land w (h * 2 ^ 32) = 0).
  { apply Z.bits_inj'. intros n Hn. rewrite Z.land_spec, Z.bits_0.
    destruct (Z_lt_ge_dec n 32).
    - rewrite Z.mul_pow2_bits_low by lia. apply andb_false_r.
    - destruct (Z.eq_dec w 0) as [-> | Hnz]; [rewrite Z.bits_0; reflexivity |].
      assert (Hlog : Z.log2 w < 32) by (apply Z.log2_lt_pow2; lia).
      rewrite (Z.bits_above_log2 w n); [reflexivity | lia | lia]. }
  pose proof (Z.add_lor_land w (h * 2 ^ 32)) as Hadd.
  rewrite Hland in Hadd. lia.
Qed.

Lemma fetch_of_shape (w h16 h32 : Z) :
  0 <= w < 2 ^ 32 -> 0 <= h16 < 2 ^ 16 -> 0 <= h32 < 2 ^ 32 ->
  In (snd (fetch_of w h16 h32)) [2; 4; 6; 8]
  /\ 0 <= fst (fetch_of w h16 h32) < 2 ^ (8 * snd (fetch_of w h16 h32))
  /\ (inst_length w = 0 -> fetch_of w h16 h32 = (0, 8))
  /\ (inst_length w = 0 \/
      (snd (fetch_of w h16 h32) = inst_length w
       /\ inst_length (fst (fetch_of w h16 h32)) = inst_length w)).
Proof.
  intros Hw Hh16 Hh32. unfold fetch_of, inst_length.
  destruct (negb (Z.land w 3 =? 3)) eqn:E2; cbn [fst snd].
  - assert (Hlow : Z.land w 65535 = w mod 2 ^ 16).
    { change 65535 with (Z.ones 16). apply Z.land_ones. lia. }
    rewrite Hlow.
    pose proof (Z.mod_pos_bound w (2 ^ 16) ltac:(lia)).
    split; [cbn; tauto |]. split; [change (8 * 2) with 16; lia |].
    split; [intros E; discriminate E |]. right. split; [reflexivity |].
    assert (Hl : inst_length (w mod 2 ^ 16) = inst_length w).
    { apply inst_length_congr. pow2_numerals.
      change (2 ^ 16) with 65536. Z.div_mod_to_equations. lia. }
    unfold inst_length in Hl. rewrite E2 in Hl. exact Hl.
  - destruct (negb (Z.land w 28 =? 28)) eqn:E4; cbn [fst snd].
    + split; [cbn; tauto |]. split; [change (8 * 4) with 32; lia |].
      split; [intros E; discriminate E |]. right.
      rewrite E2, E4. split; reflexivity.
    + destruct (Z.land w 63 =? 31) eqn:E6; cbn [fst snd].
      * rewrite lor_high by lia.
        split; [cbn; tauto |].
        split; [change (8 * 6) with 48; pow2_numerals;
                change (2 ^ 16) with 65536 in *;
                change (2 ^ 48) with 281474976710656; lia |].
        split; [intros E; discriminate E |]. right. split; [reflexivity |].
        assert (Hl : inst_length (w + h16 * 2 ^ 32) = inst_length w).
        { apply inst_length_congr. pow2_numerals.
          Z.div_mod_to_equations. lia. }
        unfold inst_length in Hl. rewrite E2, E4, E6 in Hl. exact Hl.
      * destruct (Z.land w 127 =? 63) eqn:E8; cbn [fst snd].
        -- rewrite lor_high by lia.
           split; [cbn; tauto |].
           split; [change (8 * 8) with 64; pow2_numerals; lia |].
           split; [intros E; discriminate E |]. right. split; [reflexivity |].
           assert (Hl : inst_length (w + h32 * 2 ^ 32) = inst_length w).
           { apply inst_length_congr. pow2_numerals.
             Z.div_mod_to_equations. lia. }
           unfold inst_length in Hl. rewrite E2, E4, E6, E8 in Hl. exact Hl.
        -- split; [cbn; tauto |]. split; [change (8 * 8) with 64; lia |].
           split; [reflexivity |]. left. reflexivity.
Qed.

(** [format_inst] prints what [inst_fetch] delivers, in as many digits as
    the length asks for. *)
Lemma format_inst_fetched (m : memory) (pc_ : Z) :
  format_inst m pc_
  = Hex (hex_digits (snd (inst_fetch m pc_))) (fst (inst_fetch m pc_))
  /\ 0 <= fst (inst_fetch m pc_) < 16 ^ hex_digits (snd (inst_fetch m pc_)).
Proof.
  destruct (fetch_of_shape (load32 m pc_) (load16 m (pc_ + 4)) (load32 m (pc_ + 4))
              (load32_range m pc_) (load16_range m (pc_ + 4))
              (load32_range m (pc_ + 4))) as (Hlen & Hfit & _).
  rewrite <- inst_fetch_fetch_of in Hlen, Hfit.
  unfold format_inst, hex_digits.
  destruct (inst_fetch m pc_) as [inst len]. cbn [fst snd] in *.
  destruct Hlen as [<- | [<- | [<- | [<- | []]]]];
    (split; [reflexivity |]);
    [change (8 * 2) with 16 in Hfit | change (8 * 4) with 32 in Hfit
     | change (8 * 6) with 48 in Hfit | change (8 * 8) with 64 in Hfit];
    [change (16 ^ (if 2 <=? 4 then 8 else if 2 =? 6 then 12 else 16)) with (2 ^ 32)
     | change (16 ^ (if 4 <=? 4 then 8 else if 4 =? 6 then 12 else 16)) with (2 ^ 32)
     | change (16 ^ (if 6 <=? 4 then 8 else if 6 =? 6 then 12 else 16)) with (2 ^ 48)
     | change (16 ^ (if 8 <=? 4 then 8 else if 8 =? 6 then 12 else 16)) with (2 ^ 64)];
    lia.
Qed.

(** A fetch reads no further than eight bytes from its address. *)
Lemma inst_fetch_window (m m' : memory) (addr : Z) :
  (forall a, addr <= a < addr + 8 -> m' a = m a) ->
  inst_fetch m' addr = inst_fetch m addr.
Proof.
  intros Hsame. rewrite !inst_fetch_fetch_of.
  assert (E1 : load32 m' addr = load32 m addr).
  { apply load_le_ext. intros a Ha. apply Hsame. change (Z.of_nat 4) with 4 in Ha. lia. }
  assert (E2 : load16 m' (addr + 4) = load16 m (addr + 4)).
  { apply load_le_ext. intros a Ha. apply Hsame. change (Z.of_nat 2) with 2 in Ha. lia. }
  assert (E3 : load32 m' (addr + 4) = load32 m (addr + 4)).
  { apply load_le_ext. intros a Ha. apply Hsame. change (Z.of_nat 4) with 4 in Ha. lia. }
  rewrite E1, E2, E3. reflexivity.
Qed.

(** X1: inst_fetch always reports a length of 2, 4, 6 or 8 bytes and an
    instruction that fits in that many bytes.  When the word at the address
    is of a legal length, the reported length is the one inst_length gives
    for that word, and inst_length of the fetched instruction gives it
    again; when it is of illegal length, the fetch delivers the instruction
    0 with length 8. *)
Theorem X1_inst_fetch_shape (m : memory) (addr : Z) :
  In (snd (inst_fetch m addr)) [2; 4; 6; 8]
  /\ 0 <= fst (inst_fetch m addr) < 2 ^ (8 * snd (inst_fetch m addr))
  /\ (inst_length (load32 m addr) = 0 -> inst_fetch m addr = (0, 8))
  /\ (inst_length (load32 m addr) = 0 \/
      (snd (inst_fetch m addr) = inst_length (load32 m addr)
       /\ inst_length (fst (inst_fetch m addr)) = inst_length (load32 m addr))).
Proof.
  rewrite inst_fetch_fetch_of.
  apply fetch_of_shape; [apply load32_range | apply load16_range | apply load32_range].
Qed.

(** The classification of the word at [addr] reads its first byte only. *)
Lemma fetch_of_low7 (w w' h16 h32 h16' h32' : Z) :
  w mod 128 = w' mod 128 ->
  snd (fetch_of w h16 h32) = snd (fetch_of w' h16' h32').
Proof.
  intros E. unfold fetch_of.
  rewrite (land_low7 w 3), (land_low7 w 28), (land_low7 w 63), (land_low7 w 127)
    by reflexivity.
  rewrite (land_low7 w' 3), (land_low7 w' 28), (land_low7 w' 63), (land_low7 w' 127)
    by reflexivity.
  rewrite E.
  repeat match goal with
         | |- context [if ?c then _ else _] => destruct c
         end; reflexivity.
Qed.

(** X2: the result of inst_fetch is decided by the bytes of the instruction
    itself: two memories that agree on the bytes from the address up to the
    reported length give the same instruction and the same length. *)
Theorem X2_inst_fetch_reads_the_instruction (m m' : memory) (addr : Z)
    (Hagree : forall a, addr <= a < addr + snd (inst_fetch m addr) -> m a = m' a) :
  inst_fetch m' addr = inst_fetch m addr.
Proof.
  assert (Hlen : In (snd (inst_fetch m addr)) [2; 4; 6; 8]).
  { rewrite inst_fetch_fetch_of.
    apply fetch_of_shape; [apply load32_range | apply load16_range | apply load32_range]. }
  assert (H16 : load16 m' addr = load16 m addr).
  { symmetry. apply load_le_ext. intros a Ha. apply Hagree.
    cbn [In] in Hlen. change (Z.of_nat 2) with 2 in Ha. lia. }
  assert (Hlow : load32 m' addr mod 128 = load32 m addr mod 128).
  { rewrite !load32_halves, H16. Z.div_mod_to_equations. lia. }
  rewrite !inst_fetch_fetch_of in *.
  pose proof (fetch_of_low7 _ _ (load16 m (addr + 4)) (load32 m (addr + 4))
                (load16 m' (addr + 4)) (load32 m' (addr + 4)) (eq_sym Hlow)) as Hsnd.
  set (w := load32 m addr) in *. set (w' := load32 m' addr) in *.
  assert (Hcase : snd (fetch_of w (load16 m (addr + 4)) (load32 m (addr + 4))) = 2
                  \/ w' = w /\ (snd (fetch_of w (load16 m (addr + 4))
                                        (load32 m (addr + 4))) = 4
                               \/ load16 m' (addr + 4) = load16 m (addr + 4)
                                  /\ (snd (fetch_of w (load16 m (addr + 4))
                                              (load32 m (addr + 4))) = 6
                                      \/ load32 m' (addr + 4) = load32 m (addr + 4)))).
  { cbn [In] in Hlen. destruct Hlen as [E | [E | [E | [E | []]]]];
      rewrite <- E in *; [left; reflexivity | right ..].
    - split; [| left; reflexivity].
      symmetry. apply load_le_ext. intros a Ha. apply Hagree.
      change (Z.of_nat 4) with 4 in Ha. lia.
    - split; [symmetry; apply load_le_ext; intros a Ha; apply Hagree;
              change (Z.of_nat 4) with 4 in Ha; lia |].
      right. split; [| left; reflexivity].
      symmetry. apply load_le_ext. intros a Ha. apply Hagree.
      change (Z.of_nat 2) with 2 in Ha. lia.
    - split; [symmetry; apply load_le_ext; intros a Ha; apply Hagree;
              change (Z.of_nat 4) with 4 in Ha; lia |].
      right. split; [symmetry; apply load_le_ext; intros a Ha; apply Hagree;
                     change (Z.of_nat 2) with 2 in Ha; lia |].
      right. symmetry. apply load_le_ext. intros a Ha. apply Hagree.
      change (Z.of_nat 4) with 4 in Ha. lia. }
  clear Hagree Hlen.
  destruct Hcase as [E2 | [Ew Hcase]].
  - (* two bytes: the low half word decides *)
    rewrite E2 in Hsnd.
    assert (Hw : Z.land w' 65535 = Z.land w 65535).
    { change 65535 with (Z.ones 16). rewrite !Z.land_ones by lia.
      unfold w, w'. rewrite !load32_halves, H16.
      change (2 ^ 16) with 65536. Z.div_mod_to_equations. lia. }
    revert E2 Hsnd. unfold fetch_of.
    repeat match goal with
           | |- context [if ?c then _ else _] => destruct c
           end; cbn [fst snd]; intros; try discriminate; rewrite Hw; reflexivity.
  - rewrite Ew in *. destruct Hcase as [E4 | [Eh Hcase]].
    + revert E4. unfold fetch_of.
      repeat match goal with
             | |- context [if ?c then _ else _] => destruct c
             end; cbn [fst snd]; intros; try discriminate; reflexivity.
    + rewrite Eh. destruct Hcase as [E6 | Eh32].
      * revert E6. unfold fetch_of.
        repeat match goal with
               | |- context [if ?c then _ else _] => destruct c
               end; cbn [fst snd]; intros; try discriminate; reflexivity.
      * rewrite Eh32. reflexivity.
Qed.

(** X3: format_inst never produces the text "(invalid)": it prints the
    fetched instruction in hexadecimal, zero-padded to 8 digits for a 2- or
    4-byte instruction, 12 for a 6-byte and 16 for an 8-byte one, and the
    instruction always fits in that many digits. *)
Theorem X3_format_inst_prints_hex (m : memory) (pc_ : Z) :
  exists d,
    format_inst m pc_ = Hex d (fst (inst_fetch m pc_))
    /\ d = (if snd (inst_fetch m pc_) <=? 4 then 8
            else if snd (inst_fetch m pc_) =? 6 then 12 else 16)
    /\ 0 <= fst (inst_fetch m pc_) < 16 ^ d.
Proof.
  assert (Hshape := fetch_of_shape (load32 m pc_) (load16 m (pc_ + 4))
                      (load32 m (pc_ + 4)) (load32_range m pc_)
                      (load16_range m (pc_ + 4)) (load32_range m (pc_ + 4))).
  rewrite <- inst_fetch_fetch_of in Hshape.
  destruct Hshape as (Hlen & Hfit & _).
  unfold format_inst.
  destruct (inst_fetch m pc_) as [inst len]. cbn [fst snd] in *.
  destruct Hlen as [<- | [<- | [<- | [<- | []]]]]; cbn [Z.eqb Z.leb Z.compare Pos.eqb Pos.compare Pos.compare_cont];
    eexists; (split; [reflexivity |]); (split; [reflexivity |]);
    change (8 * 2) with 16 in Hfit; change (8 * 4) with 32 in Hfit;
    change (8 * 6) with 48 in Hfit; change (8 * 8) with 64 in Hfit;
    change (16 ^ 8) with (2 ^ 32); change (16 ^ 12) with (2 ^ 48);
    change (16 ^ 16) with (2 ^ 64);
    change (2 ^ 16) with 65536 in *; change (2 ^ 48) with 281474976710656 in *;
    pow2_numerals; lia.
Qed.

End FetchFacts.

Module FetchWitnesses.
Import Word Mem Codec Machine Emulator Observe Observe2 Samples FetchFacts.

Lemma X2_inst_fetch_reads_the_instruction_witness :
  inst_fetch (write_byte (word_at 0x10000 19) 0x10004 255) 0x10000
  = inst_fetch (word_at 0x10000 19) 0x10000.
Proof.
  apply (X2_inst_fetch_reads_the_instruction (word_at 0x10000 19)
           (write_byte (word_at 0x10000 19) 0x10004 255) 0x10000).
  intros a Ha.
  change (snd (inst_fetch (word_at 0x10000 19) 0x10000)) with 4 in Ha.
  unfold write_byte. destruct (Z.eqb_spec a 0x10004) as [E | _]; [lia | reflexivity].
Defined.

End FetchWitnesses.

(* ------------------------------------------------------------------ *)
(** * The halt on an unhandled instruction, and the loader's test *)

Module HaltFacts.
Import Word Mem Codec Machine HostCalls Abi Emulator Observe Observe2 StepperFacts
  FetchFacts.
Local Open Scope emu_scope.

Lemma logged_no_host_call (p : processor) (d : decode) (w : world) :
  forallb (fun e => negb (is_host_call e)) (logged p d w) = true.
Proof.
  unfold logged. destruct (log_registers p), (log_instructions p); reflexivity.
Qed.

Lemma unmap_segments_run (segs : list (Z * Z)) : forall w,
  exists w',
    unmap_segments segs w = Normal tt w'
    /\ mem w' = mem w
    /\ trace w' = trace w ++ map (fun s => EvMunmap (fst s) (snd s)) segs.
Proof.
  induction segs as [| seg segs IH]; intros w.
  - exists w. cbn. rewrite app_nil_r. auto.
  - cbn [unmap_segments]. unfold bind, munmap.
    destruct (IH (emit (EvMunmap (fst seg) (snd seg)) w)) as (w' & Hrun & Hmem & Htr).
    exists w'. split; [exact Hrun |]. split; [exact Hmem |].
    rewrite Htr. cbn [trace emit map]. rewrite <- app_assoc. reflexivity.
Qed.

Section Halt.
Variable T : target.
Variable U : unit_ops.
Variable H : host.

Lemma exec_phase_halts (p : processor) (d : decode) (len : Z) (w : world)
    (p1 : processor) (m1 : memory) :
  u_exec_inst U d len p (mem w) = (false, p1, m1) ->
  op d <> riscv_op_ecall T ->
  exists w',
    exec_phase T U H p d len w = Normal (Return false, p1) w'
    /\ mem w' = m1
    /\ errno w' = errno w
    /\ trace w' = trace w ++ logged p d w ++ [illegal_diagnostic p1 m1].
Proof.
  intros Hexec Hop. apply Z.eqb_neq in Hop.
  unfold exec_phase, logged, illegal_diagnostic, bind.
  destruct (log_registers p), (log_instructions p);
    cbn [print_int_regeisters print_disassembly ret mem emit];
    rewrite Hexec, Hop;
    (eexists; split; [reflexivity |]; split; [reflexivity |];
     split; [reflexivity |];
     cbn [trace emit with_mem debug app]; rewrite <- ?app_assoc; reflexivity).
Qed.

End Halt.

(** C7: whenever the loop of step stands at a state in which exec_inst
    returns false on the record it is given and that record's opcode is not
    ecall, step returns false in that iteration.  The processor is the one
    exec_inst left, memory likewise; after what the iteration logs, the only
    thing the host sees is the diagnostic: no host call is made, so the
    syscall proxy did not run and exit was not called.  The loop of start
    ends there, and the emulator unmaps its segments and returns.  The
    diagnostic carries the current PC and the raw instruction: the word
    inst_fetch delivers at that PC, in hexadecimal, in 8, 12 or 16 digits by
    its length, and the word fits in them.  When exec_inst has left the PC
    and the eight bytes at it alone, that word is the very instruction the
    iteration fetched and found unhandled. *)
Theorem C7_unhandled_instruction_halts (T : target) (U : unit_ops) (H : host)
    (n : Z) (k fuel : nat) (count : Z) (st0 st : runner) (w0 w : world)
    (p1 : processor) (m1 : memory)
    (Hreach : step T U H n k count st0 w0 = Normal (None, st) w)
    (Hexec : u_exec_inst U (executed_record U n st w) (fetched_length st w)
               (proc st) (mem w) = (false, p1, m1))
    (Hop : op (executed_record U n st w) <> riscv_op_ecall T) :
  exists st' w',
    step T U H n (k + S fuel) count st0 w0 = Normal (Some false, st') w'
    /\ proc st' = p1
    /\ mem w' = m1
    /\ trace w' = trace w ++ logged (proc st) (executed_record U n st w) w
                  ++ [illegal_diagnostic p1 m1]
    /\ forallb (fun e => negb (is_host_call e))
         (logged (proc st) (executed_record U n st w) w
          ++ [illegal_diagnostic p1 m1]) = true
    /\ (n = inst_cache_size -> count = 1024 -> forall calls,
          step_until_halt T U H (S calls) (k + S fuel) st0 w0 = Normal (Some st') w')
    /\ (exists w'',
          unmap_segments (mapped_segments p1) w' = Normal tt w''
          /\ trace w'' = trace w' ++ map (fun s => EvMunmap (fst s) (snd s))
                                       (mapped_segments p1))
    /\ illegal_diagnostic p1 m1
       = EvDebug "illegal instruciton: pc=0x%tx inst=%s"
           [AInt (to_uintptr (pc p1));
            AInst (Hex (hex_digits (snd (inst_fetch m1 (pc p1))))
                     (fst (inst_fetch m1 (pc p1))))]
    /\ 0 <= fst (inst_fetch m1 (pc p1))
         < 16 ^ hex_digits (snd (inst_fetch m1 (pc p1)))
    /\ (pc p1 = pc (proc st) ->
        (forall a, pc (proc st) <= a < pc (proc st) + 8 -> m1 a = mem w a) ->
        inst_fetch m1 (pc p1) = (fetched_inst st w, fetched_length st w)).
Proof.
  destruct (step_reaches T U H n k count st0 st w0 w Hreach) as [Hcount Hloop].
  destruct (exec_phase_halts T U H (proc st) _ _ w p1 m1 Hexec Hop)
    as (w' & Hphase & Hmem & _ & Htrace).
  assert (Hstep : step T U H n (k + S fuel) count st0 w0
                  = Normal (Some false,
                            mk_runner p1
                              (snd (cache_lookup U n (inst_cache st) (dec st)
                                      (fetched_inst st w)))
                              (executed_record U n st w)) w').
  { unfold step. cbv zeta. apply Z.ltb_lt in Hcount. rewrite Hcount.
    rewrite step_loop_add, Hloop.
    cbn [step_loop]. unfold bind. rewrite step_body_phases, Hphase.
    reflexivity. }
  eexists. exists w'. split; [exact Hstep |].
  split; [reflexivity |]. split; [exact Hmem |]. split; [exact Htrace |].
  split.
  { rewrite forallb_app, logged_no_host_call. reflexivity. }
  split.
  { intros -> -> calls. cbn [step_until_halt]. unfold bind.
    rewrite Hstep. reflexivity. }
  split.
  { destruct (unmap_segments_run (mapped_segments p1) w') as (w'' & Hun & _ & Htr).
    exists w''. split; [exact Hun | exact Htr]. }
  destruct (format_inst_fetched m1 (pc p1)) as [Htext Hfits].
  split; [unfold illegal_diagnostic; rewrite Htext; reflexivity |].
  split; [exact Hfits |].
  intros Hpc Hsame. rewrite Hpc.
  rewrite (inst_fetch_window (mem w) m1 (pc (proc st)) Hsame).
  unfold fetched_inst, fetched_length. apply surjective_pairing.
Qed.

(** C4, the loader on two program headers.  A PT_LOAD header flagged
    read-write is passed over: nothing is mapped and the segment list stays
    as it is, on any host and from any state.  A header that is not PT_LOAD
    but is flagged executable is mapped.  The test in start reads bit 0 of
    p_flags, the execute flag, and never looks at p_type. *)
Theorem C4_loader_tests_flags_not_type (H : host) (dbg : bool) (p : processor)
    (filename : string) (w : world) :
  p_type Samples.data_phdr = PT_LOAD
  /\ map_load_segments H dbg p filename [Samples.data_phdr] w = Normal p w
  /\ p_type Samples.note_phdr <> PT_LOAD
  /\ (exists p' w',
        map_load_segments (Samples.willing_host Samples.zero_stat) dbg p filename
          [Samples.note_phdr] w = Normal p' w'
        /\ mapped_segments p' = mapped_segments p ++ [(0x30000, 0x40)]
        /\ trace w' = trace w ++
             [EvOpen filename O_RDONLY;
              EvMmap 0x30000 0x40 (Z.lor PROT_EXEC PROT_READ)
                (Z.lor MAP_FIXED MAP_PRIVATE) 3 0x200;
              EvClose 3]
             ++ (if dbg
                 then [EvDebug "elf: mmap: 0x%016lx - 0x%016lx %s"
                         [AInt 0x30000; AInt 0x30040; AInt 5]]
                 else [])).
Proof.
  split; [reflexivity |]. split; [reflexivity |].
  split; [intros E; discriminate E |].
  destruct dbg.
  - eexists. eexists. split; [reflexivity |]. split.
    + match goal with |- context [if ?c then _ else _] => destruct c end;
        reflexivity.
    + cbn [trace emit with_mem with_errno]. rewrite <- !app_assoc. reflexivity.
  - eexists. eexists. split; [reflexivity |]. split.
    + match goal with |- context [if ?c then _ else _] => destruct c end;
        reflexivity.
    + cbn [trace emit with_mem with_errno]. rewrite <- !app_assoc. reflexivity.
Qed.

End HaltFacts.

Module StepperWitnesses.
Import Word Mem Codec Machine HostCalls Abi Emulator Observe Samples
  StepperFacts HaltFacts.

(** C5: the stepper on a cache as the constructor of the runner leaves it,
    every record default-constructed and the stored words never written:
    here slot 19 happens to hold the word 0x13.  The guest's first
    instruction is 0x13.  Its fetch hits slot 19, and the record executed is
    the default record (the illegal opcode), which no decode produced, and
    not the decode of 0x13.  The run with the 8191-entry cache reports an
    illegal instruction and halts with the program counter where it was;
    the run with the one-entry cache misses, decodes, executes the
    instruction and goes on at 0x10004.  The two runs differ. *)
Theorem C5_unwritten_slot_is_executed :
  fetched_inst (fresh_runner (proc_with_regs 0) junk_19) nop_world = 19
  /\ executed_record toy_unit inst_cache_size
       (fresh_runner (proc_with_regs 0) junk_19) nop_world = decode_init
  /\ u_decode_inst toy_unit decode_init 19 = mk_decode 0 19 0 1 1
  /\ executed_record toy_unit inst_cache_size
       (fresh_runner (proc_with_regs 0) junk_19) nop_world
     <> u_decode_inst toy_unit decode_init
          (fetched_inst (fresh_runner (proc_with_regs 0) junk_19) nop_world)
  /\ observe (step rv64_linux toy_unit refusing_host 1 1 1024
                (fresh_runner (proc_with_regs 0) junk_19) nop_world)
     = Normal (None, set_pc (proc_with_regs 0) 0x10004) nop_world
  /\ observe (step rv64_linux toy_unit refusing_host inst_cache_size 1 1024
                (fresh_runner (proc_with_regs 0) junk_19) nop_world)
     = Normal (Some false, proc_with_regs 0)
         (emit (illegal_diagnostic (proc_with_regs 0) (mem nop_world)) nop_world)
  /\ observe (step rv64_linux toy_unit refusing_host 1 1 1024
                (fresh_runner (proc_with_regs 0) junk_19) nop_world)
     <> observe (step rv64_linux toy_unit refusing_host inst_cache_size 1 1024
                   (fresh_runner (proc_with_regs 0) junk_19) nop_world).
Proof.
  assert (E1 : observe (step rv64_linux toy_unit refusing_host 1 1 1024
                          (fresh_runner (proc_with_regs 0) junk_19) nop_world)
               = Normal (None, set_pc (proc_with_regs 0) 0x10004) nop_world)
    by reflexivity.
  assert (E2 : observe (step rv64_linux toy_unit refusing_host inst_cache_size 1 1024
                          (fresh_runner (proc_with_regs 0) junk_19) nop_world)
               = Normal (Some false, proc_with_regs 0)
                   (emit (illegal_diagnostic (proc_with_regs 0) (mem nop_world))
                      nop_world))
    by reflexivity.
  split; [reflexivity |]. split; [reflexivity |]. split; [reflexivity |].
  split; [vm_compute; intros E; discriminate E |].
  split; [exact E1 |]. split; [exact E2 |].
  rewrite E1, E2. intros E. discriminate E.
Qed.

(** On a start-up cache whose stored words are all zero, the two cache
    sizes run the sample program alike. *)
Lemma decode_cache_transparent_on_zero_cache :
  observe (step rv64_linux toy_unit refusing_host 1 3 1024
             (fresh_runner (proc_with_regs 0) (fun _ => 0)) nop_world)
  = observe (step rv64_linux toy_unit refusing_host inst_cache_size 3 1024
               (fresh_runner (proc_with_regs 0) (fun _ => 0)) nop_world).
Proof.
  destruct (decode_cache_transparent_when_coherent rv64_linux toy_unit refusing_host
              (proc_with_regs 0)
              (inst_cache (fresh_runner (proc_with_regs 0) (fun _ => 0)))
              (inst_cache (fresh_runner (proc_with_regs 0) (fun _ => 0))))
    as [Hsame _].
  - intros d d' inst. reflexivity.
  - intros k _ _. reflexivity.
  - intros k _ _. reflexivity.
  - exact (Hsame 3%nat 1024 decode_init decode_init nop_world).
Defined.

Lemma C7_unhandled_instruction_halts_witness :
  exists st' w',
    step rv64_linux toy_unit refusing_host inst_cache_size 1 1024
      (fresh_runner (proc_with_regs 0) (fun _ => 0)) zero_world
    = Normal (Some false, st') w'
    /\ trace w' = [EvDebug "illegal instruciton: pc=0x%tx inst=%s"
                     [AInt 0x10000; AInst (Hex 8 0)]]
    /\ fetched_inst (fresh_runner (proc_with_regs 0) (fun _ => 0)) zero_world = 0.
Proof.
  destruct (C7_unhandled_instruction_halts rv64_linux toy_unit refusing_host
              inst_cache_size 0 0 1024
              (fresh_runner (proc_with_regs 0) (fun _ => 0))
              (fresh_runner (proc_with_regs 0) (fun _ => 0))
              zero_world zero_world (proc_with_regs 0) (fun _ => 0))
    as (st' & w' & Hstep & _ & _ & Htrace & _ & _ & _ & Hdiag & _ & Hsame).
  - reflexivity.
  - reflexivity.
  - vm_compute. intros E. discriminate E.
  - exists st', w'. split; [exact Hstep |].
    rewrite Hdiag in Htrace. split; [exact Htrace |].
    specialize (Hsame eq_refl (fun a _ => eq_refl)).
    exact (f_equal fst (eq_sym Hsame)).
Defined.

End StepperWitnesses.

(* ------------------------------------------------------------------ *)
(** * Further properties of the cache, the stepper and the proxy *)

Module RunFacts.
Import Word Mem Codec Machine HostCalls Abi Emulator Observe Observe2
  WordFacts BrkFacts ProxyFacts StepperFacts.
Local Open Scope emu_scope.

(** X4: a second lookup of the same instruction word, right after the
    first, returns the same record and leaves the cache as the first left it
    (whatever the local record then holds); a lookup changes no slot but the
    word's; and a different word with the same key evicts: the next lookup of
    the first word decodes it again. *)
Theorem X4_cache_lookup_again (U : unit_ops) (n : Z) (c : cache)
    (d0 d1 : decode) (inst : Z) :
  cache_lookup U n (snd (cache_lookup U n c d0 inst)) d1 inst
  = cache_lookup U n c d0 inst
  /\ (forall k, k <> inst mod n -> snd (cache_lookup U n c d0 inst) k = c k)
  /\ (forall inst2 d2 d3,
        inst2 <> inst -> inst2 mod n = inst mod n ->
        fst (cache_lookup U n
               (snd (cache_lookup U n (snd (cache_lookup U n c d0 inst)) d2 inst2))
               d3 inst)
        = u_decode_inst U d3 inst).
Proof.
  assert (Hset : forall c' e, ent_inst (cache_set c' (inst mod n) e (inst mod n))
                              = ent_inst e).
  { intros c' e. unfold cache_set. rewrite Z.eqb_refl. reflexivity. }
  split; [| split].
  - destruct (Z.eqb_spec (ent_inst (c (inst mod n))) inst) as [E | N].
    + rewrite (cache_lookup_hit U n c d0 inst E). cbn [snd].
      apply cache_lookup_hit. exact E.
    + assert (Hmiss : cache_lookup U n c d0 inst
                      = (u_decode_inst U d0 inst,
                         cache_set c (inst mod n)
                           (mk_ent inst (u_decode_inst U d0 inst)))).
      { unfold cache_lookup.
        destruct (Z.eqb_spec (ent_inst (c (inst mod n))) inst);
          [contradiction | reflexivity]. }
      rewrite Hmiss. cbn [snd]. rewrite cache_lookup_hit by apply Hset.
      unfold cache_set. rewrite Z.eqb_refl. reflexivity.
  - intros k Hk. unfold cache_lookup.
    destruct (ent_inst (c (inst mod n)) =? inst); cbn [snd]; [reflexivity |].
    unfold cache_set. destruct (Z.eqb_spec k (inst mod n)); [contradiction | reflexivity].
  - intros inst2 d2 d3 Hne Hkey.
    assert (Hfirst : ent_inst (snd (cache_lookup U n c d0 inst) (inst mod n)) = inst).
    { unfold cache_lookup.
      destruct (Z.eqb_spec (ent_inst (c (inst mod n))) inst) as [E | N]; cbn [snd].
      - exact E.
      - rewrite Hset. reflexivity. }
    set (c1 := snd (cache_lookup U n c d0 inst)) in *.
    unfold cache_lookup at 2. rewrite Hkey, Hfirst.
    destruct (Z.eqb_spec inst inst2) as [E | _]; [congruence |]. cbn [snd].
    unfold cache_lookup. rewrite Hset. cbn [ent_inst].
    destruct (Z.eqb_spec inst2 inst) as [E | _]; [congruence |]. reflexivity.
Qed.

Section Proxy.
Variable T : target.
Variable H : host.

Lemma set_a0_frame (p : processor) (v : Z) : proxy_frame p (set_a0 T p v).
Proof.
  unfold proxy_frame. cbn [set_a0 set_ireg pc flags hart_id heap_begin heap_end
                           log_registers log_instructions mapped_segments].
  repeat split; try lia.
  - intros r Hr. apply set_a0_other. exact Hr.
  - exists []. symmetry. apply app_nil_r.
Qed.

Lemma sys_close_run (p : processor) (w : world) :
  exists r e,
    sys_close T H p w
    = Normal (set_a0 T p r)
        (with_errno (emit (EvClose (to_int (reg_val T (a0 p)))) w) e).
Proof.
  unfold sys_close, bind, close.
  destruct (host_close H _ _) as [r e]. eexists. eexists. reflexivity.
Qed.

Lemma sys_brk_frame (p : processor) (w : world) (p' : processor) (w' : world) :
  sys_brk T H p w = Normal p' w' -> proxy_frame p p'.
Proof.
  intros Hrun.
  destruct (brk_grows T p) eqn:Hg.
  - destruct (brk_mmap_answer T H p w) as [m' | e] eqn:Hans.
    + destruct (sys_brk_grown T H p w m' Hg Hans) as (w1 & Hrun1 & _).
      rewrite Hrun1 in Hrun. inversion Hrun; subst. clear Hrun.
      assert (Hlt : heap_end p < round_up (brk_request T p) (page_size T)).
      { unfold brk_grows in Hg. apply negb_true_iff, orb_false_iff in Hg.
        destruct Hg as [Hle _]. apply Z.leb_gt in Hle. exact Hle. }
      unfold proxy_frame.
      cbn [set_a0 set_ireg set_heap_end push_segment pc flags hart_id heap_begin
           heap_end log_registers log_instructions mapped_segments].
      repeat split; try lia.
      * intros r Hr. rewrite set_a0_other by exact Hr. reflexivity.
      * eexists. reflexivity.
    + rewrite (sys_brk_failed T H p w e Hg Hans) in Hrun.
      inversion Hrun; subst. apply set_a0_frame.
  - rewrite (sys_brk_fits T H p w Hg) in Hrun.
    inversion Hrun; subst. apply set_a0_frame.
Qed.

Lemma sys_brk_returns (p : processor) (w : world) :
  exists p' w', sys_brk T H p w = Normal p' w'.
Proof.
  destruct (brk_grows T p) eqn:Hg.
  - destruct (brk_mmap_answer T H p w) as [m' | e] eqn:Hans.
    + destruct (sys_brk_grown T H p w m' Hg Hans) as (w1 & Hrun1 & _).
      eexists. eexists. exact Hrun1.
    + eexists. eexists. apply sys_brk_failed; eassumption.
  - eexists. eexists. apply sys_brk_fits. exact Hg.
Qed.

Lemma proxy_syscall_frame (p : processor) (w : world) (p' : processor) (w' : world) :
  proxy_syscall T H p w = Normal p' w' -> proxy_frame p p'.
Proof.
  unfold proxy_syscall.
  destruct (_ =? riscv_syscall_close T).
  { destruct (sys_close_run p w) as (r & e & ->). intros E. inversion E.
    apply set_a0_frame. }
  destruct (_ =? riscv_syscall_write T).
  { rewrite sys_write_run. intros E. inversion E. apply set_a0_frame. }
  destruct (_ =? riscv_syscall_fstat T).
  { rewrite sys_fstat_run. cbv zeta.
    destruct (_ =? 0); intros E; inversion E; apply set_a0_frame. }
  destruct (_ =? riscv_syscall_exit T).
  { intros E. discriminate E. }
  destruct (_ =? riscv_syscall_brk T).
  { apply sys_brk_frame. }
  intros E. discriminate E.
Qed.

End Proxy.

Section Run.
Variable T : target.
Variable U : unit_ops.
Variable H : host.

(** The execution phase starts with the two log lines. *)
Lemma exec_phase_logs (p : processor) (d : decode) (len : Z) (w : world) :
  exec_phase T U H p d len w =
    (let '(handled, p1, m1) := u_exec_inst U d len p (mem w) in
     let w2 := with_mem (log_world p d w) m1 in
     if handled then Normal (Continue, p1) w2
     else if op d =? riscv_op_ecall T then
       (p2 <- proxy_syscall T H p1 ;;
        ret (Continue, set_pc p2 (wrap (bits (xlen T)) (pc p2 + len)))) w2
     else
       (debug "illegal instruciton: pc=0x%tx inst=%s"
          [AInt (to_uintptr (pc p1)); AInst (format_inst m1 (pc p1))] ;;;
        ret (Return false, p1)) w2).
Proof.
  unfold exec_phase, log_world, bind.
  destruct (log_registers p), (log_instructions p);
    cbn [print_int_regeisters print_disassembly ret mem emit]; reflexivity.
Qed.

(** An iteration never asks [step] to return true. *)
Lemma exec_phase_flow (p : processor) (d : decode) (len : Z) (w : world)
    (fl : flow) (p' : processor) (w' : world) :
  exec_phase T U H p d len w = Normal (fl, p') w' ->
  fl = Continue \/ fl = Return false.
Proof.
  rewrite exec_phase_logs.
  destruct (u_exec_inst U d len p (mem w)) as [[handled p1] m1].
  destruct handled; [intros E; inversion E; auto |].
  destruct (op d =? riscv_op_ecall T).
  - unfold bind. destruct (proxy_syscall T H p1 _); intros E; inversion E; auto.
  - intros E. inversion E. auto.
Qed.

Lemma step_loop_never_true (n : Z) (fuel : nat) : forall st w st' w',
  step_loop T U H n fuel st w <> Normal (Some true, st') w'.
Proof.
  induction fuel as [| fuel IH]; intros st w st' w' E.
  - discriminate E.
  - cbn [step_loop] in E. unfold bind in E. rewrite step_body_phases in E.
    destruct (exec_phase T U H (proc st) (executed_record U n st w)
                (fetched_length st w) w) as [[fl p1] w1 | code w1 | w1] eqn:Ephase;
      cbn [attach fst snd] in E; try discriminate E.
    destruct (exec_phase_flow _ _ _ _ _ _ _ Ephase) as [-> | ->].
    + exact (IH _ _ _ _ E).
    + discriminate E.
Qed.

End Run.

(** X5: step returns true only for a count of zero, and then at once, with
    the processor, the cache and the world untouched.  For a positive count
    the loop never returns true, however long it runs (the counter i is never
    incremented): it ends with false, in exit or in panic, or not at all.  So
    the loop of start, which repeats step(1024) while it returns true, calls
    step once. *)
Theorem X5_step_returns_true_only_for_zero (T : target) (U : unit_ops) (H : host)
    (n : Z) (fuel : nat) (count : Z) (st : runner) (w : world) :
  (count <= 0 ->
     step T U H n fuel count st w
     = Normal (Some true, mk_runner (proc st) (inst_cache st) decode_init) w)
  /\ (0 < count ->
      forall st' w', step T U H n fuel count st w <> Normal (Some true, st') w')
  /\ (forall calls,
        step_until_halt T U H (S calls) fuel st w
        = step_until_halt T U H 1 fuel st w).
Proof.
  split; [| split].
  - intros Hc. unfold step. cbv zeta.
    destruct (Z.ltb_spec 0 count); [lia | reflexivity].
  - intros Hc st' w'. unfold step. cbv zeta.
    destruct (Z.ltb_spec 0 count); [| lia].
    apply step_loop_never_true.
  - intros calls. cbn [step_until_halt]. unfold bind.
    destruct (step T U H inst_cache_size fuel 1024 st w)
      as [[[[|] |] st1] w1 | code w1 | w1] eqn:E; cbn [fst snd]; try reflexivity.
    exfalso. revert E. unfold step. cbv zeta. cbn [Z.ltb Z.compare].
    apply step_loop_never_true.
Qed.

(** X6: every proxied syscall that returns to the guest leaves the program
    counter, every register but a0, the flags and heap_begin as they were;
    heap_end does not decrease and the list of mapped segments is only
    extended at its end. *)
Theorem X6_proxy_syscall_frame (T : target) (H : host) (p : processor) (w : world)
    (p' : processor) (w' : world)
    (Hrun : proxy_syscall T H p w = Normal p' w') :
  pc p' = pc p
  /\ (forall r, r <> riscv_ireg_a0 -> ireg p' r = ireg p r)
  /\ flags p' = flags p
  /\ heap_begin p' = heap_begin p
  /\ heap_end p <= heap_end p'
  /\ (exists segs, mapped_segments p' = mapped_segments p ++ segs).
Proof.
  destruct (proxy_syscall_frame T H p w p' w' Hrun)
    as (Hpc & Hregs & Hflags & _ & Hhb & _ & _ & Hhe & Hsegs).
  repeat split; assumption.
Qed.

(** X7: how proxy_syscall can end.  It ends in the host's exit only when a7
    holds the exit number, with the low 32 bits of a0 as the exit code and
    the exit call as the only thing done; it panics exactly when a7 holds
    none of the five numbers, and then "unknown syscall" is the only thing
    the host sees: no host call is made; it returns to the guest only for
    close, write, fstat and brk. *)
Theorem X7_proxy_syscall_outcomes (T : target) (H : host) (p : processor) (w : world) :
  match proxy_syscall T H p w with
  | Normal _ _ =>
      In (syscall_number T p)
        [riscv_syscall_close T; riscv_syscall_write T; riscv_syscall_fstat T;
         riscv_syscall_brk T]
  | Exited code w' =>
      syscall_number T p = riscv_syscall_exit T
      /\ code = to_int (reg_val T (a0 p))
      /\ w' = emit (EvExit code) w
  | Panicked w' =>
      ~ In (syscall_number T p)
          [riscv_syscall_close T; riscv_syscall_write T; riscv_syscall_fstat T;
           riscv_syscall_exit T; riscv_syscall_brk T]
      /\ w' = emit (EvPanic "unknown syscall: %d" [AInt (syscall_number T p)]) w
  end.
Proof.
  unfold proxy_syscall. fold (syscall_number T p).
  destruct (Z.eqb_spec (syscall_number T p) (riscv_syscall_close T)) as [Ec | Nc].
  { destruct (sys_close_run T H p w) as (r & e & ->). cbn [In]. auto. }
  destruct (Z.eqb_spec (syscall_number T p) (riscv_syscall_write T)) as [Ew | Nw].
  { rewrite sys_write_run. cbn [In]. auto. }
  destruct (Z.eqb_spec (syscall_number T p) (riscv_syscall_fstat T)) as [Ef | Nf].
  { rewrite sys_fstat_run. cbv zeta. destruct (_ =? 0); cbn [In]; auto. }
  destruct (Z.eqb_spec (syscall_number T p) (riscv_syscall_exit T)) as [Ee | Ne].
  { unfold sys_exit, exit. auto. }
  destruct (Z.eqb_spec (syscall_number T p) (riscv_syscall_brk T)) as [Eb | Nb].
  { destruct (sys_brk T H p w) as [p' w' | code w' | w'] eqn:Ebrk.
    - cbn [In]. auto.
    - exfalso. destruct (sys_brk_returns T H p w) as (p1 & w1 & E1).
      rewrite E1 in Ebrk. discriminate Ebrk.
    - exfalso. destruct (sys_brk_returns T H p w) as (p1 & w1 & E1).
      rewrite E1 in Ebrk. discriminate Ebrk. }
  unfold panic. split; [| reflexivity].
  cbn [In]. intros [E | [E | [E | [E | [E | []]]]]]; congruence.
Qed.

(** X8: an iteration of the stepper whose instruction the executor leaves
    unhandled and whose opcode is ecall, and whose syscall returns to the
    guest, goes on with the next iteration: the program counter is the one
    the executor left plus the instruction length (truncated to XLEN), every
    register but a0 is as the executor left it, and the cache and the world
    are the ones after the lookup and the proxy. *)
Theorem X8_ecall_advances_pc (T : target) (U : unit_ops) (H : host) (n : Z)
    (st : runner) (w : world) (p1 p2 : processor) (m1 : memory) (w2 : world)
    (Hexec : u_exec_inst U (executed_record U n st w) (fetched_length st w)
               (proc st) (mem w) = (false, p1, m1))
    (Hop : op (executed_record U n st w) = riscv_op_ecall T)
    (Hproxy : proxy_syscall T H p1
                (with_mem (log_world (proc st) (executed_record U n st w) w) m1)
              = Normal p2 w2) :
  exists st',
    step_body T U H n st w = Normal (Continue, st') w2
    /\ pc (proc st') = wrap (bits (xlen T)) (pc p1 + fetched_length st w)
    /\ (forall r, r <> riscv_ireg_a0 -> ireg (proc st') r = ireg p1 r)
    /\ heap_end p1 <= heap_end (proc st')
    /\ inst_cache st'
       = snd (cache_lookup U n (inst_cache st) (dec st) (fetched_inst st w))
    /\ dec st' = executed_record U n st w.
Proof.
  destruct (proxy_syscall_frame T H _ _ _ _ Hproxy)
    as (Hpc & Hregs & _ & _ & _ & _ & _ & Hhe & _).
  eexists. split.
  - rewrite step_body_phases, exec_phase_logs.
    assert (Hmem : mem w = mem w) by reflexivity.
    rewrite Hexec. apply Z.eqb_eq in Hop. rewrite Hop.
    unfold bind. rewrite Hproxy. reflexivity.
  - cbn [proc inst_cache dec set_pc pc ireg heap_end].
    rewrite Hpc. repeat split; try assumption.
Qed.

End RunFacts.
(* ------------------------------------------------------------------ *)
(** * Further properties of brk and of the stat conversion *)

Module GrowFacts.
Import Word Mem Codec Machine HostCalls Abi Emulator Observe Observe2
  WordFacts MemFacts BrkFacts ProxyFacts StatFacts.

Lemma round_up_multiple (v n : Z) : 0 < n -> round_up v n mod n = 0.
Proof. intros Hn. rewrite round_up_quot by exact Hn. apply Z.mod_mul. lia. Qed.

Lemma round_up_range (v n : Z) : 0 <= round_up v n < 2 ^ 64.
Proof. apply u64_range. Qed.

(** When [sys_brk] goes on to map, the rounded break lies below the rounded
    request. *)
Lemma brk_grows_order (T : target) (p : processor) :
  0 < page_size T -> 0 <= heap_end p < 2 ^ 64 -> brk_grows T p = true ->
  heap_end p < round_up (brk_request T p) (page_size T)
  /\ round_up (heap_end p) (page_size T) < round_up (brk_request T p) (page_size T).
Proof.
  intros Hn Hh Hg. unfold brk_grows in Hg.
  apply negb_true_iff, orb_false_iff in Hg. destruct Hg as [Hle Hne].
  apply Z.leb_gt in Hle. apply Z.eqb_neq in Hne.
  split; [exact Hle |].
  destruct (Z_lt_ge_dec (round_up (brk_request T p) (page_size T))
              (round_up (heap_end p) (page_size T))) as [Hlt | Hge]; [| lia].
  pose proof (round_up_below (brk_request T p) (heap_end p) (page_size T) Hn Hh Hlt).
  lia.
Qed.

(** X9: when sys_brk grows the heap and the mapping succeeds, it maps
    exactly the pages from the old break rounded up to the new break rounded
    up: the region is not empty, a whole number of pages long, and ends at
    the new heap_end; the region is appended to the mapped segments, a0 holds
    the request, and memory is what the host's mmap left. *)
Theorem X9_brk_maps_the_pages_between (T : target) (H : host) (p : processor)
    (w : world) (m' : memory)
    (Hpage : 0 < page_size T)
    (Hheap : 0 <= heap_end p < 2 ^ 64)
    (Hgrows : brk_grows T p = true)
    (Hmapped : brk_mmap_answer T H p w = inl m') :
  exists p' w' len,
    sys_brk T H p w = Normal p' w'
    /\ mapped_segments p'
       = mapped_segments p ++ [(round_up (heap_end p) (page_size T), len)]
    /\ 0 < len
    /\ len mod page_size T = 0
    /\ round_up (heap_end p) (page_size T) + len = heap_end p'
    /\ heap_end p' = round_up (brk_request T p) (page_size T)
    /\ heap_end p < heap_end p'
    /\ ireg p' riscv_ireg_a0 = wrap (bits (xlen T)) (brk_request T p)
    /\ mem w' = m'
    /\ brk_mmap_event T p
       = EvMmap (round_up (heap_end p) (page_size T)) len
           (Z.lor PROT_READ PROT_WRITE)
           (Z.lor (Z.lor MAP_FIXED MAP_ANONYMOUS) MAP_PRIVATE) (-1) 0.
Proof.
  destruct (sys_brk_grown T H p w m' Hgrows Hmapped) as (w' & Hrun & Hmem & _).
  destruct (brk_grows_order T p Hpage Hheap Hgrows) as [Hlt Hord].
  pose proof (round_up_range (heap_end p) (page_size T)) as Hr1.
  pose proof (round_up_range (brk_request T p) (page_size T)) as Hr2.
  assert (Hlen : u64 (round_up (brk_request T p) (page_size T)
                      - round_up (heap_end p) (page_size T))
                 = round_up (brk_request T p) (page_size T)
                   - round_up (heap_end p) (page_size T)).
  { apply wrap_small. lia. }
  eexists. exists w'. eexists. split; [exact Hrun |].
  cbn [set_a0 set_ireg set_heap_end push_segment mapped_segments heap_end].
  split; [reflexivity |]. rewrite Hlen.
  split; [lia |].
  split.
  { rewrite (round_up_quot (brk_request T p)), (round_up_quot (heap_end p)) by exact Hpage.
    rewrite <- Z.mul_sub_distr_r. apply Z.mod_mul. lia. }
  split; [lia |]. split; [reflexivity |]. split; [exact Hlt |].
  split; [apply set_a0_a0 |]. split; [exact Hmem |].
  unfold brk_mmap_event. cbv zeta. rewrite Hlen. reflexivity.
Qed.

(** X10: brk is idempotent.  After a call of sys_brk that did not fail,
    calling it again with what the first call left in a0 makes no host call
    and changes nothing: every register, heap_end, the mapped segments and
    the world are as the first call left them. *)
Theorem X10_brk_again_changes_nothing (T : target) (H : host) (p : processor)
    (w : world) (p' : processor) (w' : world)
    (Hreg : 0 <= a0 p < 2 ^ bits (xlen T))
    (Hfirst : sys_brk T H p w = Normal p' w')
    (Hdone : brk_grows T p = false \/ exists m', brk_mmap_answer T H p w = inl m') :
  exists p'',
    sys_brk T H p' w' = Normal p'' w'
    /\ (forall r, ireg p'' r = ireg p' r)
    /\ pc p'' = pc p'
    /\ heap_end p'' = heap_end p'
    /\ mapped_segments p'' = mapped_segments p'.
Proof.
  assert (Hsame : forall q, a0 q = a0 p -> brk_request T q = brk_request T p).
  { intros q E. unfold brk_request. rewrite E. reflexivity. }
  assert (Hback : wrap (bits (xlen T)) (brk_request T p) = a0 p).
  { apply request_roundtrip. exact Hreg. }
  assert (Hshape : a0 p' = a0 p
                   /\ round_up (brk_request T p) (page_size T) <= heap_end p'
                      \/ a0 p' = a0 p /\ heap_end p' = heap_end p
                         /\ brk_grows T p = false).
  { destruct Hdone as [Hfit | [m' Hans]].
    - rewrite (sys_brk_fits T H p w Hfit) in Hfirst. inversion Hfirst; subst.
      right. split; [| split; [reflexivity | exact Hfit]].
      unfold a0 at 1. rewrite set_a0_a0. exact Hback.
    - destruct (brk_grows T p) eqn:Hg.
      + destruct (sys_brk_grown T H p w m' Hg Hans) as (w1 & Hrun & _).
        rewrite Hrun in Hfirst. inversion Hfirst; subst. left.
        split; [unfold a0 at 1; rewrite set_a0_a0; exact Hback |].
        cbn [set_a0 set_ireg set_heap_end heap_end]. lia.
      + rewrite (sys_brk_fits T H p w Hg) in Hfirst. inversion Hfirst; subst.
        right. split; [| split; [reflexivity | reflexivity]].
        unfold a0 at 1. rewrite set_a0_a0. exact Hback. }
  assert (Hfits' : brk_grows T p' = false).
  { unfold brk_grows. apply negb_false_iff.
    destruct Hshape as [[Ea Hle] | (Ea & Ehe & Hg)].
    - rewrite (Hsame p' Ea). apply orb_true_iff. left. apply Z.leb_le. exact Hle.
    - rewrite (Hsame p' Ea), Ehe. unfold brk_grows in Hg.
      apply negb_false_iff in Hg. exact Hg. }
  assert (Ea : a0 p' = a0 p) by (destruct Hshape as [[E _] | [E _]]; exact E).
  exists (set_a0 T p' (brk_request T p')).
  split; [apply sys_brk_fits; exact Hfits' |].
  split.
  { intros r. destruct (Z.eq_dec r riscv_ireg_a0) as [-> | Hr].
    - rewrite set_a0_a0, (Hsame p' Ea), Hback. symmetry. exact Ea.
    - apply set_a0_other. exact Hr. }
  repeat split.
Qed.

(** Every member lies inside the structure. *)
Lemma member_inside (x : xlen_t) (f : field) :
  0 <= offsetof x f /\ offsetof x f + widthof x f <= sizeof_unknown_stat x.
Proof. destruct x, f; vm_compute; split; intros E; discriminate E. Qed.

Lemma assign_outside (x : xlen_t) (a : Z) (f : field) (v : Z) (m : memory) (b : Z) :
  b < a \/ a + sizeof_unknown_stat x <= b -> assign x a f v m b = m b.
Proof.
  intros Hout. unfold assign. apply store_le_outside.
  pose proof (member_inside x f).
  destruct (widthof_cases x f) as [E | E]; rewrite E in *; lia.
Qed.

Lemma assign_all_outside (x : xlen_t) (a : Z) (l : list (field * Z)) (b : Z) :
  b < a \/ a + sizeof_unknown_stat x <= b ->
  forall m, assign_all x a l m b = m b.
Proof.
  intros Hout. induction l as [| [f v] l IH]; intros m; [reflexivity |].
  cbn [assign_all fold_left fst snd]. fold (assign_all x a l (assign x a f v m)).
  rewrite IH. apply assign_outside. exact Hout.
Qed.

(** X11: sys_fstat, whether the host call succeeds or not, writes guest
    memory only inside the structure at the address in a1: every byte below
    that address or at least sizeof(unknown_stat) above it (80 bytes for
    XLEN=32, 128 for XLEN=64) is as it was. *)
Theorem X11_fstat_writes_inside_the_structure (T : target) (H : host)
    (p : processor) (w : world) :
  exists p' w',
    sys_fstat T H p w = Normal p' w'
    /\ sizeof_unknown_stat (xlen T) = match xlen T with RV32 => 80 | RV64 => 128 end
    /\ (forall b,
          b < to_uintptr (a1 p)
          \/ to_uintptr (a1 p) + sizeof_unknown_stat (xlen T) <= b ->
          mem w' b = mem w b).
Proof.
  rewrite sys_fstat_run. cbv zeta.
  destruct (fst (fst (fstat_answer T H p w)) =? 0).
  - eexists. eexists. split; [reflexivity |].
    split; [destruct (xlen T); reflexivity |].
    intros b Hout. cbn [mem with_mem].
    rewrite cvt_unknown_stat_assign_all. apply assign_all_outside. exact Hout.
  - eexists. eexists. split; [reflexivity |].
    split; [destruct (xlen T); reflexivity |].
    intros b _. reflexivity.
Qed.

End GrowFacts.

(* ------------------------------------------------------------------ *)
(** * Properties of the loader *)

Module LoaderFacts.
Import Word Mem Codec Machine HostCalls Abi Emulator Observe Observe2 WordFacts.
Local Open Scope emu_scope.

Lemma land_pow2 (v k : Z) :
  0 <= k -> Z.land v (2 ^ k) = if Z.testbit v k then 2 ^ k else 0.
Proof.
  intros Hk. apply Z.bits_inj'. intros n Hn.
  rewrite Z.land_spec, Z.pow2_bits_eqb by exact Hk.
  destruct (Z.eqb_spec k n) as [-> | Hne].
  - destruct (Z.testbit v n); [| rewrite Z.bits_0; reflexivity].
    rewrite Z.pow2_bits_eqb, Z.eqb_refl by exact Hn. reflexivity.
  - rewrite andb_false_r.
    destruct (Z.testbit v k); [| rewrite Z.bits_0; reflexivity].
    rewrite Z.pow2_bits_eqb by exact Hk.
    symmetry. apply Z.eqb_neq. exact Hne.
Qed.

(** X12: elf_p_flags_mmap reads the three low bits of p_flags and nothing
    else: the result has PROT_EXEC exactly when PF_X (bit 0) is set,
    PROT_WRITE exactly when PF_W (bit 1) is set, PROT_READ exactly when PF_R
    (bit 2) is set, and no other bit. *)
Theorem X12_elf_p_flags_mmap_bits (v : Z) :
  elf_p_flags_mmap v
  = (if Z.testbit v 0 then PROT_EXEC else 0)
    + (if Z.testbit v 1 then PROT_WRITE else 0)
    + (if Z.testbit v 2 then PROT_READ else 0)
  /\ 0 <= elf_p_flags_mmap v <= 7
  /\ elf_p_flags_mmap v = elf_p_flags_mmap (v mod 8)
  /\ Z.testbit (elf_p_flags_mmap v) 2 = Z.testbit v 0
  /\ Z.testbit (elf_p_flags_mmap v) 1 = Z.testbit v 1
  /\ Z.testbit (elf_p_flags_mmap v) 0 = Z.testbit v 2.
Proof.
  assert (Hform : forall u,
            elf_p_flags_mmap u
            = (if Z.testbit u 0 then PROT_EXEC else 0)
              + (if Z.testbit u 1 then PROT_WRITE else 0)
              + (if Z.testbit u 2 then PROT_READ else 0)).
  { intros u. unfold elf_p_flags_mmap, PF_X, PF_W, PF_R.
    pose proof (land_pow2 u 0 ltac:(lia)) as E0.
    pose proof (land_pow2 u 1 ltac:(lia)) as E1.
    pose proof (land_pow2 u 2 ltac:(lia)) as E2.
    change (2 ^ 0) with 1 in E0. change (2 ^ 1) with 2 in E1.
    change (2 ^ 2) with 4 in E2. rewrite E0, E1, E2.
    destruct (Z.testbit u 0), (Z.testbit u 1), (Z.testbit u 2); reflexivity. }
  assert (Hlow : forall k, 0 <= k < 3 -> Z.testbit (v mod 8) k = Z.testbit v k).
  { intros k Hk. change 8 with (2 ^ 3). apply Z.mod_pow2_bits_low. lia. }
  split; [apply Hform |].
  split; [rewrite Hform;
          destruct (Z.testbit v 0), (Z.testbit v 1), (Z.testbit v 2);
          vm_compute; split; intros E; discriminate E |].
  split; [rewrite (Hform v), (Hform (v mod 8)), !Hlow by lia; reflexivity |].
  rewrite Hform.
  destruct (Z.testbit v 0), (Z.testbit v 1), (Z.testbit v 2); repeat split.
Qed.

Section Loader.
Variable H : host.
Variable dbg : bool.

(** [map_load_segment] in one equation. *)
Lemma map_load_segment_run (p : processor) (filename : string) (h : Elf64_Phdr)
    (w : world) :
  exists eo w1 ec w2,
    (load_fd H filename w < 0 /\
     map_load_segment H dbg p filename h w
     = Panicked (emit (EvPanic "map_executable: error: open: %s: %s"
                         [AStr filename; AStrerror eo])
                   (with_errno (emit (EvOpen filename O_RDONLY) w) eo)))
    \/ (0 <= load_fd H filename w
        /\ trace w1 = trace w ++ [EvOpen filename O_RDONLY;
                                  load_mmap_event h (load_fd H filename w)]
        /\ w2 = with_errno (emit (EvClose (load_fd H filename w)) w1) ec
        /\ (map_load_segment H dbg p filename h w
            = Panicked (emit (EvPanic "map_executable: error: mmap: %s: %s"
                                [AStr filename; AStrerror ec]) w2)
            \/ exists w3,
                 map_load_segment H dbg p filename h w
                 = Normal
                     (let q := push_segment p (p_vaddr h, p_memsz h) in
                      if heap_begin q <? seg_end h
                      then set_heap_end (set_heap_begin q (seg_end h)) (seg_end h)
                      else q) w3
                 /\ (w3 = w2
                     \/ exists d, is_host_call d = false /\ is_panic d = false
                                  /\ w3 = emit d w2))).
Proof.
  unfold map_load_segment, load_fd, load_mmap_event, bind, open, mmap, close, get_errno.
  destruct (host_open H (emit (EvOpen filename O_RDONLY) w) filename O_RDONLY)
    as [r eo] eqn:Eopen.
  cbn [fst].
  destruct (Z.ltb_spec (to_int r) 0) as [Hneg | Hpos].
  - exists eo, w, 0, w. left. split; [exact Hneg | reflexivity].
  - match goal with
    | |- context [host_mmap H ?wm ?a ?l ?pr ?fl ?fd ?off] =>
        destruct (host_mmap H wm a l pr fl fd off) as [m' | em] eqn:Emmap
    end.
    + match goal with
      | |- context [host_close H ?wc ?fd] =>
          destruct (host_close H wc fd) as [rc ec] eqn:Eclose
      end.
      eexists eo, _, ec, _. right. split; [exact Hpos |].
      split; [| split].
      3: { right. destruct dbg.
           - eexists. split; [reflexivity |]. right.
             eexists. split; [| split; [| reflexivity]]; reflexivity.
           - eexists. split; [reflexivity |]. left. reflexivity. }
      2: reflexivity.
      cbn [trace with_mem emit with_errno]. rewrite <- app_assoc. reflexivity.
    + match goal with
      | |- context [host_close H ?wc ?fd] =>
          destruct (host_close H wc fd) as [rc ec] eqn:Eclose
      end.
      eexists eo, _, ec, _. right. split; [exact Hpos |].
      split; [| split].
      3: { left. reflexivity. }
      2: reflexivity.
      cbn [trace with_mem emit with_errno]. rewrite <- app_assoc. reflexivity.
Qed.

End Loader.


(** X14: when the loop of start over the program headers returns, the
    mapped segments have gained (p_vaddr, p_memsz) of every header that
    passed the loop's test, in header order; heap_begin is the largest of its
    old value and the end addresses of those headers; a loader that started
    with heap_end = heap_begin ends with heap_end = heap_begin; the program
    counter and the registers are untouched. *)
Theorem X14_map_load_segments_result (H : host) (dbg : bool) (filename : string)
    (hs : list Elf64_Phdr) (p : processor) (w : world)
    (p' : processor) (w' : world)
    (Hrun : map_load_segments H dbg p filename hs w = Normal p' w') :
  mapped_segments p'
  = mapped_segments p ++ map (fun h => (p_vaddr h, p_memsz h)) (loaded hs)
  /\ heap_begin p' = fold_left Z.max (map seg_end (loaded hs)) (heap_begin p)
  /\ (heap_end p = heap_begin p -> heap_end p' = heap_begin p')
  /\ pc p' = pc p
  /\ (forall r, ireg p' r = ireg p r).
Proof.
  revert p w Hrun. induction hs as [| h hs IH]; intros p w Hrun.
  - cbn in Hrun. inversion Hrun; subst. cbn. rewrite app_nil_r. auto.
  - cbn [map_load_segments] in Hrun. unfold bind in Hrun.
    unfold loaded. cbn [filter]. fold (loaded hs).
    change (passes_load_test h) with (negb (Z.land (p_flags h) PT_LOAD =? 0)).
    destruct (negb (Z.land (p_flags h) PT_LOAD =? 0)).
    + destruct (map_load_segment_run H dbg p filename h w)
        as (eo & w1 & ec & w2 & [[_ Hone] | (_ & _ & _ & [Hone | (w3 & Hone & _)])]);
        rewrite Hone in Hrun; try discriminate Hrun.
      destruct (IH _ _ Hrun) as (Hsegs & Hhb & Hinv & Hpc & Hregs).
      cbv zeta in *.
      destruct (Z.ltb_spec (heap_begin (push_segment p (p_vaddr h, p_memsz h)))
                  (seg_end h)) as [Hlt | Hge];
        cbn [push_segment set_heap_end set_heap_begin mapped_segments heap_begin
             heap_end pc ireg] in *.
      * split; [rewrite Hsegs, <- app_assoc; reflexivity |].
        split; [rewrite Hhb; cbn [map fold_left]; rewrite Z.max_r by lia; reflexivity |].
        split; [intros _; apply Hinv; reflexivity |]. auto.
      * split; [rewrite Hsegs, <- app_assoc; reflexivity |].
        split; [rewrite Hhb; cbn [map fold_left]; rewrite Z.max_l by lia; reflexivity |].
        split; [exact Hinv |]. auto.
    + cbn [ret] in Hrun. exact (IH _ _ Hrun).
Qed.

End LoaderFacts.

(* ------------------------------------------------------------------ *)
(** * Properties of the ISA selection and of the table-driven rewrites *)

Module CmdlineFacts.
Import Word Mem Codec Cmdline WordFacts.

Lemma code_range (c : Ascii.ascii) : 0 <= Z.of_N (Ascii.N_of_ascii c) < 256.
Proof. pose proof (Ascii.N_ascii_bounded c). lia. Qed.

Lemma tolower_range (x : Z) : 0 <= x < 256 -> 0 <= tolower x < 256.
Proof.
  intros Hx. unfold tolower.
  destruct (Z.leb_spec 65 x), (Z.leb_spec x 90); cbn [andb]; lia.
Qed.

Lemma tolower_zero (x : Z) : tolower x = 0 <-> x = 0.
Proof.
  unfold tolower.
  destruct (Z.leb_spec 65 x), (Z.leb_spec x 90); cbn [andb]; lia.
Qed.

Lemma lower_char_eq (c c' : Ascii.ascii) :
  lower_char c = lower_char c'
  <-> tolower (Z.of_N (Ascii.N_of_ascii c)) = tolower (Z.of_N (Ascii.N_of_ascii c')).
Proof.
  unfold lower_char. split; [| intros ->; reflexivity].
  intros E.
  pose proof (tolower_range _ (code_range c)) as R.
  pose proof (tolower_range _ (code_range c')) as R'.
  apply (f_equal Ascii.N_of_ascii) in E.
  rewrite !Ascii.N_ascii_embedding in E by lia. lia.
Qed.

(** Comparing the whole of a NUL-free string against [t] without regard to
    case asks whether the string is, up to case, a prefix of [t]. *)
Lemma strncasecmp_prefix (s : string) : forall t,
  no_nul s = true ->
  (strncasecmp s t (String.length s) =? 0) = prefix (lower s) (lower t).
Proof.
  induction s as [| c s IH]; intros t Hs; [destruct t; reflexivity |].
  cbn [no_nul] in Hs. apply andb_prop in Hs. destruct Hs as [Hc Hs].
  apply negb_true_iff, Z.eqb_neq in Hc.
  assert (Hc1 : tolower (Z.of_N (Ascii.N_of_ascii c)) <> 0)
    by (rewrite tolower_zero; exact Hc).
  cbn [String.length strncasecmp first_char rest lower].
  destruct t as [| c' t]; cbn [first_char rest lower prefix].
  - change (tolower 0) with 0.
    destruct (Z.eqb_spec (tolower (Z.of_N (Ascii.N_of_ascii c))) 0) as [E | N];
      [contradiction |].
    cbn [negb]. apply Z.eqb_neq. lia.
  - destruct (Z.eqb_spec (tolower (Z.of_N (Ascii.N_of_ascii c)))
                (tolower (Z.of_N (Ascii.N_of_ascii c')))) as [E | N]; cbn [negb].
    + destruct (Z.eqb_spec (tolower (Z.of_N (Ascii.N_of_ascii c))) 0);
        [contradiction |].
      destruct (Ascii.ascii_dec (lower_char c) (lower_char c')) as [_ | Hne].
      * apply IH. exact Hs.
      * exfalso. apply Hne. apply lower_char_eq. exact E.
    + destruct (Ascii.ascii_dec (lower_char c) (lower_char c')) as [He | _].
      * exfalso. apply N. apply lower_char_eq. exact He.
      * apply Z.eqb_neq. lia.
Qed.

Lemma prefix_prefixes (t : string) : forall x,
  prefix x t = true <-> In x (prefixes t).
Proof.
  induction t as [| b t IH]; intros x.
  - destruct x; cbn; split; intros Hx; try tauto; try discriminate.
    destruct Hx as [E | []]. discriminate E.
  - destruct x as [| a x]; cbn [prefix prefixes In]; [tauto |].
    destruct (Ascii.ascii_dec a b) as [-> | Hne].
    + rewrite IH. split.
      * intros Hin. right. apply in_map. exact Hin.
      * intros [E | Hin]; [discriminate E |].
        apply in_map_iff in Hin. destruct Hin as (y & E & Hy).
        inversion E; subst. exact Hy.
    + split; [intros E; discriminate E |].
      intros [E | Hin]; [discriminate E |].
      apply in_map_iff in Hin. destruct Hin as (y & E & _).
      inversion E; subst. contradiction.
Qed.

(** A case of the selection in which the folded argument is a given
    string: every side of every equivalence is decided by evaluation. *)
Ltac closed_isa_case :=
  repeat match goal with
         | |- context [prefix ?a ?b] =>
             let v := eval vm_compute in (prefix a b) in
             change (prefix a b) with v
         end;
  cbn [In];
  repeat split; intros Hx;
  first
    [ discriminate Hx
    | reflexivity
    | solve [auto 10]
    | exfalso;
      repeat (destruct Hx as [Hx | Hx]; [discriminate Hx |]);
      first [exact Hx | discriminate Hx]
    | intros Hin;
      repeat (destruct Hin as [Hin | Hin]; [discriminate Hin |]);
      exact Hin
    | exfalso; apply Hx; solve [auto 10] ].

(** X15: decode_isa_ext accepts an argument when it is, up to case, a prefix
    of an ISA name, and takes the first name in the order IMA, IMAC, IMAFD,
    IMAFDC that it is a prefix of.  So the empty string, "i" and "im" select
    IMA like "ima" does, "imaf" selects IMAFD, and IMAC and IMAFDC are
    selected by their full names only; any other argument gives none. *)
Theorem X15_decode_isa_ext_accepts_prefixes (s : string)
    (Hs : no_nul s = true) :
  (decode_isa_ext s = rv_isa_ima
   <-> In (lower s) [""; "i"; "im"; "ima"]%string)
  /\ (decode_isa_ext s = rv_isa_imac <-> lower s = "imac"%string)
  /\ (decode_isa_ext s = rv_isa_imafd
      <-> lower s = "imaf"%string \/ lower s = "imafd"%string)
  /\ (decode_isa_ext s = rv_isa_imafdc <-> lower s = "imafdc"%string)
  /\ (decode_isa_ext s = rv_isa_none
      <-> ~ In (lower s)
            [""; "i"; "im"; "ima"; "imac"; "imaf"; "imafd"; "imafdc"]%string).
Proof.
  unfold decode_isa_ext.
  rewrite !(strncasecmp_prefix s) by exact Hs.
  change (lower "IMA") with "ima"%string.
  change (lower "IMAC") with "imac"%string.
  change (lower "IMAFD") with "imafd"%string.
  change (lower "IMAFDC") with "imafdc"%string.
  generalize (lower s). clear s Hs. intros x.
  destruct (string_dec x "") as [-> | N0]; [closed_isa_case |].
  destruct (string_dec x "i") as [-> | N1]; [closed_isa_case |].
  destruct (string_dec x "im") as [-> | N2]; [closed_isa_case |].
  destruct (string_dec x "ima") as [-> | N3]; [closed_isa_case |].
  destruct (string_dec x "imac") as [-> | N4]; [closed_isa_case |].
  destruct (string_dec x "imaf") as [-> | N5]; [closed_isa_case |].
  destruct (string_dec x "imafd") as [-> | N6]; [closed_isa_case |].
  destruct (string_dec x "imafdc") as [-> | N7]; [closed_isa_case |].
  assert (Hnone : forall t, In t ["ima"; "imac"; "imafd"; "imafdc"]%string ->
                            prefix x t = false).
  { intros t Ht. destruct (prefix x t) eqn:E; [| reflexivity]. exfalso.
    apply prefix_prefixes in E.
    cbn [In] in Ht.
    repeat (destruct Ht as [<- | Ht];
            [cbn [prefixes map In] in E;
             repeat (destruct E as [E | E]; [symmetry in E; contradiction |]);
             exact E |]).
    exact Ht. }
  rewrite !Hnone by (cbn [In]; auto 6).
  cbn [In].
  repeat split; intros Hx; try discriminate Hx; try reflexivity;
    try (exfalso;
         repeat (destruct Hx as [Hx | Hx];
                 [first [contradiction | symmetry in Hx; contradiction] |]);
         first [exact Hx | contradiction]).
  intros Hin.
  repeat (destruct Hin as [Hin | Hin]; [symmetry in Hin; contradiction |]).
  exact Hin.
Qed.

End CmdlineFacts.

Module CmdlineWitnesses.
Import Word Mem Codec Cmdline CmdlineFacts.

Lemma X15_decode_isa_ext_accepts_prefixes_witness :
  decode_isa_ext "ImaF" = rv_isa_imafd /\ decode_isa_ext "" = rv_isa_ima.
Proof.
  split.
  - apply (proj1 (proj2 (proj2 (X15_decode_isa_ext_accepts_prefixes "ImaF" eq_refl)))).
    left. reflexivity.
  - apply (proj1 (X15_decode_isa_ext_accepts_prefixes "" eq_refl)).
    left. reflexivity.
Defined.

End CmdlineWitnesses.

(* ------------------------------------------------------------------ *)
(** * Memory is released at shutdown only *)

Module ReleaseFacts.
Import Word Mem Codec Machine HostCalls Abi Emulator Observe Observe2
  WordFacts BrkFacts ProxyFacts StepperFacts HaltFacts RunFacts LoaderFacts.
Local Open Scope emu_scope.








Section Quiet.
Variable T : target.
Variable U : unit_ops.
Variable H : host.
Variable dbg : bool.




















End Quiet.



(** X17: when the mapping of the stack succeeds, map_stack appends the
    region that ends at stack_top and is stack_size long to the mapped
    segments and sets sp to stack_top - 8, which lies inside that region for
    a stack of at least 8 bytes below 2^XLEN; no other register, the program
    counter or the break changes.  When the mapping fails it panics after
    the failed mmap, having made no other host call. *)
Theorem X17_map_stack_sets_sp_inside_the_stack (T : target) (H : host) (dbg : bool)
    (p : processor) (top size : Z) (w : world)
    (Hsize : 8 <= size <= top)
    (Htop : top < 2 ^ bits (xlen T)) :
  match stack_mmap_answer H top size w with
  | inl m' =>
      exists p' w',
        map_stack T H dbg p top size w = Normal p' w'
        /\ mapped_segments p' = mapped_segments p ++ [(top - size, size)]
        /\ ireg p' riscv_ireg_sp = top - 8
        /\ top - size <= ireg p' riscv_ireg_sp < top
        /\ (forall r, r <> riscv_ireg_sp -> ireg p' r = ireg p r)
        /\ pc p' = pc p
        /\ heap_end p' = heap_end p
        /\ mem w' = m'
  | inr e =>
      map_stack T H dbg p top size w
      = Panicked (emit (EvPanic "map_stack: error: mmap: %s" [AStrerror e])
                    (with_errno (emit (stack_mmap_event top size) w) e))
  end.
Proof.
  assert (Hbits : 2 ^ bits (xlen T) <= 2 ^ 64) by (destruct (xlen T); cbn; lia).
  assert (Hbase : u64 (top - size) = top - size) by (apply wrap_small; lia).
  assert (Hsp : wrap (bits (xlen T)) (top - 8) = top - 8) by (apply wrap_small; lia).
  unfold stack_mmap_answer, stack_mmap_event, map_stack, bind, mmap.
  destruct (host_mmap H _ _ _ _ _ _ _) as [m' | e].
  - rewrite Hbase.
    assert (Hframe :
              mapped_segments (set_ireg (xlen T) (push_segment p (top - size, size))
                                 riscv_ireg_sp (top - 8))
              = mapped_segments p ++ [(top - size, size)]
              /\ ireg (set_ireg (xlen T) (push_segment p (top - size, size))
                         riscv_ireg_sp (top - 8)) riscv_ireg_sp = top - 8
              /\ top - size
                 <= ireg (set_ireg (xlen T) (push_segment p (top - size, size))
                            riscv_ireg_sp (top - 8)) riscv_ireg_sp < top
              /\ (forall r, r <> riscv_ireg_sp ->
                    ireg (set_ireg (xlen T) (push_segment p (top - size, size))
                            riscv_ireg_sp (top - 8)) r = ireg p r)).
    { cbn [set_ireg push_segment mapped_segments ireg].
      rewrite Z.eqb_refl, Hsp. repeat split; try lia.
      intros r Hr. destruct (Z.eqb_spec r riscv_ireg_sp); [contradiction | reflexivity]. }
    destruct Hframe as (F1 & F2 & F3 & F4).
    destruct dbg.
    + eexists. eexists. split; [reflexivity |].
      split; [exact F1 |]. split; [exact F2 |]. split; [exact F3 |].
      split; [exact F4 |]. repeat split.
    + eexists. eexists. split; [reflexivity |].
      split; [exact F1 |]. split; [exact F2 |]. split; [exact F3 |].
      split; [exact F4 |]. repeat split.
  - reflexivity.
Qed.

End ReleaseFacts.

Module ExtraWitnesses.
Import Word Mem Codec Machine HostCalls Abi Emulator Observe Observe2
  Samples Samples2 RunFacts GrowFacts LoaderFacts.

Lemma X6_proxy_syscall_frame_witness :
  exists p' w',
    proxy_syscall rv64_linux refusing_host (proc_with_regs 64) empty_world
    = Normal p' w'
    /\ pc p' = 0x10000
    /\ ireg p' riscv_ireg_a0 = 2 ^ 64 - 1
    /\ ireg p' riscv_ireg_a1 = 64.
Proof.
  eexists. eexists. split; [reflexivity |].
  destruct (X6_proxy_syscall_frame rv64_linux refusing_host (proc_with_regs 64)
              empty_world _ _ eq_refl) as (Hpc & Hregs & _).
  split; [exact Hpc |]. split; [reflexivity |].
  apply Hregs. intros E. discriminate E.
Defined.

Lemma X8_ecall_advances_pc_witness :
  exists st' w2,
    step_body rv64_linux toy_unit refusing_host inst_cache_size
      (fresh_runner (proc_with_regs 64) (fun _ => 0)) ecall_world
    = Normal (Continue, st') w2
    /\ pc (proc st') = 0x10004.
Proof.
  destruct (X8_ecall_advances_pc rv64_linux toy_unit refusing_host inst_cache_size
              (fresh_runner (proc_with_regs 64) (fun _ => 0)) ecall_world
              (proc_with_regs 64) _ (mem ecall_world) _ eq_refl eq_refl eq_refl)
    as (st' & Hrun & Hpc & _).
  eexists. eexists. split; [exact Hrun | exact Hpc].
Defined.

Lemma X9_brk_maps_the_pages_between_witness :
  exists p' w',
    sys_brk rv64_linux (willing_host zero_stat) (proc_with_regs 0x20000) empty_world
    = Normal p' w'
    /\ mapped_segments p' = [(0x10000, 0x1234); (0x12000, 0xe000)]
    /\ heap_end p' = 0x20000.
Proof.
  destruct (X9_brk_maps_the_pages_between rv64_linux (willing_host zero_stat)
              (proc_with_regs 0x20000) empty_world (mem empty_world))
    as (p' & w' & len & Hrun & Hsegs & _ & _ & Hend & Hhe & _).
  - reflexivity.
  - cbn [heap_end proc_with_regs]. lia.
  - reflexivity.
  - reflexivity.
  - exists p', w'. split; [exact Hrun |].
    assert (Hlen : len = 0xe000).
    { assert (E1 : round_up (heap_end (proc_with_regs 0x20000)) (page_size rv64_linux)
                   = 0x12000) by reflexivity.
      assert (E2 : round_up (brk_request rv64_linux (proc_with_regs 0x20000))
                     (page_size rv64_linux) = 0x20000) by reflexivity.
      rewrite Hhe, E1, E2 in Hend. lia. }
    subst len. split; [exact Hsegs | exact Hhe].
Defined.

Lemma X10_brk_again_changes_nothing_witness :
  exists p' w' p'',
    sys_brk rv64_linux (willing_host zero_stat) (proc_with_regs 0x20000) empty_world
    = Normal p' w'
    /\ sys_brk rv64_linux (willing_host zero_stat) p' w' = Normal p'' w'
    /\ heap_end p'' = heap_end p'.
Proof.
  edestruct (X10_brk_again_changes_nothing rv64_linux (willing_host zero_stat)
               (proc_with_regs 0x20000) empty_world)
    as (p'' & Hrun & _ & _ & Hhe & _).
  - cbn [a0 ireg proc_with_regs bits xlen rv64_linux]. lia.
  - reflexivity.
  - right. exists (mem empty_world). reflexivity.
  - eexists. eexists. exists p''.
    split; [reflexivity |]. split; [exact Hrun | exact Hhe].
Defined.

Lemma X14_map_load_segments_result_witness :
  exists p' w',
    map_load_segments (willing_host zero_stat) false proc_init "a.out"
      [text_phdr; data_phdr; rwx_phdr] empty_world = Normal p' w'
    /\ mapped_segments p' = [(0x10000, 0x1234); (0x20000, 0x800)]
    /\ heap_begin p' = 0x20800
    /\ heap_end p' = 0x20800.
Proof.
  eexists. eexists. split; [reflexivity |].
  destruct (X14_map_load_segments_result (willing_host zero_stat) false "a.out"
              [text_phdr; data_phdr; rwx_phdr] proc_init empty_world _ _ eq_refl)
    as (Hsegs & Hhb & Hinv & _).
  split; [exact Hsegs |]. split; [exact Hhb |].
  exact (eq_trans (Hinv eq_refl) Hhb).
Defined.

Lemma X17_map_stack_sets_sp_inside_the_stack_witness :
  exists p' w',
    map_stack rv32_linux (willing_host zero_stat) false proc_init
      stack_top stack_size empty_world = Normal p' w'
    /\ ireg p' riscv_ireg_sp = 0x77fffff8
    /\ mapped_segments p' = [(0x77000000, 0x1000000)].
Proof.
  pose proof (ReleaseFacts.X17_map_stack_sets_sp_inside_the_stack rv32_linux
                (willing_host zero_stat) false proc_init stack_top stack_size
                empty_world ltac:(unfold stack_top, stack_size; lia)
                ltac:(unfold stack_top; cbn [bits xlen rv32_linux]; lia)) as Hm.
  change (stack_mmap_answer (willing_host zero_stat) stack_top stack_size empty_world)
    with (@inl memory Z (mem empty_world)) in Hm.
  destruct Hm as (p' & w' & Hrun & Hsegs & Hsp & _).
  exists p', w'. split; [exact Hrun |]. split; [exact Hsp | exact Hsegs].
Defined.

End ExtraWitnesses.

